(** * cneuromod_vg_utils: replaying emulator movies and exporting frames

    A shallow embedding of [cneuromod_vg_utils/replay.py] and
    [cneuromod_vg_utils/video.py].  Python values, dictionaries and
    exceptions are in [Py]; the movie replayer, the session reformatter and
    their orchestration are in [Replay]; the media exporters are in [Video];
    the import of the package's modules is in [Package]. *)

From Stdlib Require Import String Ascii ZArith Bool Arith Lia List.
Import ListNotations.

Local Open Scope string_scope.
Local Open Scope list_scope.

(** ** Python values, exceptions and dictionaries *)

Module Py.

(** A dictionary key of the programs below: a [str] or [None] (the button
    lists of several consoles hold a [None] entry). *)
Definition name := option string.

Inductive pyval :=
| VNone
| VBool (b : bool)
| VInt (z : Z)
| VStr (s : string).

Inductive exn :=
| IndexError
| KeyError
| AttributeError
| UnboundLocalError (var : string)
| ImportError (missing : string)
| FileNotFoundError
| RuntimeError (msg : string)
| CalledProcessError (returncode : Z)
| OSError
| LibraryError (origin : string).

Definition result (A : Type) : Type := exn + A.

Definition bind {A B} (r : result A) (k : A -> result B) : result B :=
  match r with
  | inl e => inl e
  | inr a => k a
  end.

Definition name_eqb (a b : name) : bool :=
  match a, b with
  | None, None => true
  | Some x, Some y => String.eqb x y
  | _, _ => false
  end.

(** A [dict] in insertion order.  A well-formed one has no key twice. *)
Definition dict (V : Type) : Type := list (name * V).

(** [d.get(k)] *)
Fixpoint dget {V} (d : dict V) (k : name) : option V :=
  match d with
  | [] => None
  | (k', v) :: rest => if name_eqb k' k then Some v else dget rest k
  end.

(** [d[k] = v]: an existing key keeps its place, a new one goes last. *)
Fixpoint dset {V} (d : dict V) (k : name) (v : V) : dict V :=
  match d with
  | [] => [(k, v)]
  | (k', v') :: rest =>
      if name_eqb k' k then (k', v) :: rest else (k', v') :: dset rest k v
  end.

Inductive level := DEBUG | INFO | WARNING.

(** One call of [logging.debug], [logging.info] or [logging.warning]. *)
Record log_entry := { lvl : level; text : string }.

End Py.

Import Py.

Notation "x <- r ;; k" := (bind r (fun x => k))
  (at level 61, r at next level, right associativity).

(** ** replay.py *)

Module Replay.

(** *** The emulator library, as the replayer uses it *)

Definition bytes := list Byte.byte.

(** [retro.Movie]: the input log is read one step at a time; [pending] is
    the part of the log not read yet, [current] the step read last (per
    player, one boolean per button). *)
Record Movie := {
  movie_game : string;
  movie_state : bytes;
  players : nat;
  pending : list (list (list bool));
  current : list (list bool)
}.

(** [movie.step()] *)
Definition movie_step (m : Movie) : bool * Movie :=
  match pending m with
  | [] => (false, m)
  | now :: later =>
      (true, {| movie_game := movie_game m; movie_state := movie_state m;
                players := players m; pending := later; current := now |})
  end.

(** [movie.get_key(i, p)] *)
Definition get_key (m : Movie) (i p : nat) : bool :=
  nth i (nth p (current m) []) false.

Inductive State := State_DEFAULT | State_NONE | State_named (s : string).
Inductive Integrations := STOCK | CONTRIB | EXPERIMENTAL | CUSTOM_ONLY | ALL.

(** What [emulator.step(keys)] returns. *)
Record StepOut (Frame : Type) := {
  out_frame : Frame;
  out_rew : Z;
  out_terminate : bool;
  out_truncate : bool;
  out_info : list (string * Z)
}.
Arguments out_frame {Frame}.
Arguments out_rew {Frame}.
Arguments out_terminate {Frame}.
Arguments out_truncate {Frame}.
Arguments out_info {Frame}.

(** The emulator session object: [buttons], [num_buttons] and
    [initial_state] are attributes, [em] is the native core. *)
Record Emulator (Core : Type) := {
  buttons : list name;
  num_buttons : nat;
  initial_state : bytes;
  em : Core
}.
Arguments buttons {Core}.
Arguments num_buttons {Core}.
Arguments initial_state {Core}.
Arguments em {Core}.

(** The library itself: opening a movie file and making an emulator session
    can fail; the native core is a state machine, whose step is taken as
    total. *)
Record Retro := {
  Frame : Type;
  Core : Type;
  retro_Movie : string -> result Movie;
  retro_make : string -> State -> option string -> Integrations -> bool ->
               result (Emulator Core);
  core_reset : bytes -> Core -> Core;
  core_step : Core -> list bool -> Core * StepOut Frame;
  core_get_state : Core -> bytes
}.

Record Annotations := {
  reward : Z;
  done : bool;
  info : list (string * Z)
}.

(** The tuple [frame, keys, annotations, truncate, actions, state] of one
    [yield]. *)
Record StepRecord (R : Retro) := {
  rec_frame : Frame R;
  rec_keys : list bool;
  rec_annotations : Annotations;
  rec_truncate : bool;
  rec_actions : list name;
  rec_state : bytes
}.
Arguments rec_frame {R}.
Arguments rec_keys {R}.
Arguments rec_annotations {R}.
Arguments rec_truncate {R}.
Arguments rec_actions {R}.
Arguments rec_state {R}.

Record Args := {
  bk2_path : string;
  skip_first_step : bool;
  state : State;
  game : option string;
  scenario : option string;
  inttype : Integrations
}.

Definition with_skip (a : Args) (b : bool) : Args :=
  {| bk2_path := bk2_path a; skip_first_step := b; state := state a;
     game := game a; scenario := scenario a; inttype := inttype a |}.

(** *** The two handles and the log *)

Inductive handle := Absent | Held | Released.

Record World := {
  movie_h : handle;
  emulator_h : handle;
  log : list log_entry
}.

Definition fresh : World :=
  {| movie_h := Absent; emulator_h := Absent; log := [] |}.

Definition set_movie_h (h : handle) (w : World) : World :=
  {| movie_h := h; emulator_h := emulator_h w; log := log w |}.

Definition set_emulator_h (h : handle) (w : World) : World :=
  {| movie_h := movie_h w; emulator_h := h; log := log w |}.

Definition logging (l : level) (msg : string) (w : World) : World :=
  {| movie_h := movie_h w; emulator_h := emulator_h w;
     log := log w ++ [{| lvl := l; text := msg |}] |}.

Definition both_released (w : World) : Prop :=
  movie_h w = Released /\ emulator_h w = Released.

(** How a [for] loop over a generator ends; [OutOfFuel] is the model's
    own, for a loop cut short by its bound. *)
Inductive Outcome (S : Type) :=
| Done (s : S)
| Raised (e : exn) (s : S)
| OutOfFuel (s : S).
Arguments Done {S}.
Arguments Raised {S}.
Arguments OutOfFuel {S}.

(** Line 29-30: the game named by the caller, or else the movie's. *)
Definition resolve_game (a : Args) (movie : Movie) : string :=
  match game a with
  | None => movie_game movie
  | Some g => g
  end.

(** *** replay_bk2 *)

Section Generator.

Variable R : Retro.

(** A generator object: its body has not started, or it is suspended at
    the [yield] of the loop with its locals, or it is over. *)
Inductive Gen :=
| Created (a : Args)
| Suspended (movie : Movie) (emulator : Emulator (Core R))
    (actions : list name)
| Finished.

(** What a [next()] gives back to the consumer. *)
Inductive Signal :=
| Yield (r : StepRecord R)
| StopIteration
| Raise (e : exn).

(** Lines 39-42: per player, one key per button. *)
Definition read_keys (movie : Movie) (nb : nat) : list bool :=
  flat_map (fun p => map (fun i => get_key movie i p) (seq 0 nb))
           (seq 0 (players movie)).

(** [emulator.initial_state = st] *)
Definition set_initial_state (emulator : Emulator (Core R)) (st : bytes)
  : Emulator (Core R) :=
  {| buttons := buttons emulator; num_buttons := num_buttons emulator;
     initial_state := st; em := em emulator |}.

(** [emulator.reset()] *)
Definition emulator_reset (emulator : Emulator (Core R)) : Emulator (Core R) :=
  {| buttons := buttons emulator; num_buttons := num_buttons emulator;
     initial_state := initial_state emulator;
     em := core_reset R (initial_state emulator) (em emulator) |}.

(** [emulator.step(keys)] *)
Definition emulator_step (emulator : Emulator (Core R)) (keys : list bool)
  : Emulator (Core R) * StepOut (Frame R) :=
  let (core, out) := core_step R (em emulator) keys in
  ({| buttons := buttons emulator; num_buttons := num_buttons emulator;
      initial_state := initial_state emulator; em := core |}, out).

(** Lines 38-48, entered at the loop test. *)
Definition loop (movie : Movie) (emulator : Emulator (Core R))
    (actions : list name) (w : World) : World * Gen * Signal :=
  let (more, movie) := movie_step movie in
  if more then
    let keys := read_keys movie (num_buttons emulator) in
    let (emulator, out) := emulator_step emulator keys in
    let annotations :=
      {| reward := out_rew out; done := out_terminate out;
         info := out_info out |} in
    let st := core_get_state R (em emulator) in
    (w, Suspended movie emulator actions,
     Yield {| rec_frame := out_frame out; rec_keys := keys;
              rec_annotations := annotations;
              rec_truncate := out_truncate out;
              rec_actions := actions; rec_state := st |})
  else
    let w := set_emulator_h Released w in
    let w := set_movie_h Released w in
    (w, Finished, StopIteration).

(** Lines 28-37, then the loop. *)
Definition start (a : Args) (w : World) : World * Gen * Signal :=
  match retro_Movie R (bk2_path a) with
  | inl e => (w, Finished, Raise e)
  | inr movie =>
      let w := set_movie_h Held w in
      let game := resolve_game a movie in
      let w := logging DEBUG ("Creating emulator for game: " ++ game)%string w in
      match retro_make R game (state a) (scenario a) (inttype a) false with
      | inl e => (w, Finished, Raise e)
      | inr emulator =>
          let w := set_emulator_h Held w in
          let emulator := set_initial_state emulator (movie_state movie) in
          let actions := buttons emulator in
          let emulator := emulator_reset emulator in
          let movie := if skip_first_step a
                       then snd (movie_step movie) else movie in
          loop movie emulator actions w
      end
  end.

(** [next(gen)] *)
Definition gen_next (g : Gen) (w : World) : World * Gen * Signal :=
  match g with
  | Created a => start a w
  | Suspended movie emulator actions => loop movie emulator actions w
  | Finished => (w, Finished, StopIteration)
  end.

(** [gen.close()], which is also what dropping the generator does.  A body
    that never started is not run at all.  A suspended body gets
    [GeneratorExit] at the [yield] of line 46: nothing in the body catches
    it and no [finally] encloses the [yield], so the body ends there and
    lines 47-48 are not run. *)
Definition gen_close (g : Gen) (w : World) : World * Gen :=
  match g with
  | Created _ => (w, Finished)
  | Suspended _ _ _ => (w, Finished)
  | Finished => (w, Finished)
  end.

(** The replayer is a generator function: calling it runs nothing. *)
Definition replay_bk2 (a : Args) : Gen := Created a.

(** *** Consumers *)

(** [for r in gen: s = body(s, r)], at most [fuel] pulls. *)
Fixpoint for_loop {S : Type} (fuel : nat) (body : S -> StepRecord R -> S)
    (g : Gen) (w : World) (s : S) : World * Gen * Outcome S :=
  match fuel with
  | O => (w, g, OutOfFuel s)
  | Datatypes.S fuel =>
      match gen_next g w with
      | (w, g, Yield r) => for_loop fuel body g w (body s r)
      | (w, g, StopIteration) => (w, g, Done s)
      | (w, g, Raise e) => (w, g, Raised e s)
      end
  end.

(** [list(gen)] *)
Definition collect (fuel : nat) (g : Gen) (w : World) :=
  for_loop fuel (fun acc r => acc ++ [r]) g w [].

(** [len(list(replay_bk2(...)))] from a fresh world. *)
Definition count_records (fuel : nat) (a : Args) : option nat :=
  match collect fuel (replay_bk2 a) fresh with
  | (_, _, Done recs) => Some (length recs)
  | _ => None
  end.

(** A consumer that takes [k] records and then stops iterating. *)
Fixpoint take_then_stop (k : nat) (g : Gen) (w : World)
    (acc : list (StepRecord R)) : World * Gen * list (StepRecord R) :=
  match k with
  | O => let (w, g) := gen_close g w in (w, g, acc)
  | Datatypes.S k =>
      match gen_next g w with
      | (w, g, Yield r) => take_then_stop k g w (acc ++ [r])
      | (w, g, _) => (w, g, acc)
      end
  end.

End Generator.

(** *** reformat_info *)

(** [s.split(sep)] for a separator of one character. *)
Fixpoint split (sep : ascii) (s : string) : list string :=
  match s with
  | EmptyString => [EmptyString]
  | String c rest =>
      if Ascii.eqb c sep then EmptyString :: split sep rest
      else match split sep rest with
           | tok :: toks => String c tok :: toks
           | [] => [String c EmptyString]
           end
  end.

(** [s.split(sep, 1)] *)
Fixpoint split1 (sep : ascii) (s : string) : list string :=
  match s with
  | EmptyString => [EmptyString]
  | String c rest =>
      if Ascii.eqb c sep then [EmptyString; rest]
      else match split1 sep rest with
           | tok :: toks => String c tok :: toks
           | [] => [String c EmptyString]
           end
  end.

(** [sep in s] *)
Fixpoint contains (sep : ascii) (s : string) : bool :=
  match s with
  | EmptyString => false
  | String c rest => Ascii.eqb c sep || contains sep rest
  end.

(** [os.path.basename]: what follows the last slash. *)
Definition basename (p : string) : string :=
  last (split "/" p) EmptyString.

(** Lines 90-95.  [ent.split("-", 1)] has two parts whenever ["-" in ent],
    so that the unpacking into [key, value] cannot fail. *)
Definition parse_entities (filename : string) : dict string :=
  fold_left
    (fun entities_dict ent =>
       if contains "-" ent then
         match split1 "-" ent with
         | [key; value] => dset entities_dict (Some key) value
         | _ => entities_dict
         end
       else entities_dict)
    (split "_" filename) [].

(** What a key of the returned dictionary holds. *)
Inductive slot :=
| Scalar (v : pyval)
| ActionsRef
| Seq (l : list pyval).

(** The two objects [reformat_info] writes to: the caller's [actions] list
    (the returned dictionary holds that very list under ["actions"]) and the
    dictionary [repetition_variables]. *)
Record Store := {
  actions_obj : list pyval;
  repetition_variables : dict slot
}.

Definition of_name (n : name) : pyval :=
  match n with
  | Some s => VStr s
  | None => VNone
  end.

(** The key a value is looked up as; the dictionary has only [str] and
    [None] keys, which no [int] or [bool] equals. *)
Definition to_name (v : pyval) : option name :=
  match v with
  | VStr s => Some (Some s)
  | VNone => Some None
  | _ => None
  end.

Definition of_opt (o : option string) : pyval :=
  match o with
  | Some s => VStr s
  | None => VNone
  end.

(** [repetition_variables[k].append(arg)]: the subscript, then the
    attribute, then the argument, then the call. *)
Definition append (st : Store) (k : name) (arg : result pyval) : result Store :=
  match dget (repetition_variables st) k with
  | None => inl KeyError
  | Some (Scalar _) => inl AttributeError
  | Some ActionsRef =>
      v <- arg ;;
      inr {| actions_obj := actions_obj st ++ [v];
             repetition_variables := repetition_variables st |}
  | Some (Seq l) =>
      v <- arg ;;
      inr {| actions_obj := actions_obj st;
             repetition_variables :=
               dset (repetition_variables st) k (Seq (l ++ [v])) |}
  end.

(** Lines 111-112 *)
Fixpoint info_loop (frame_info : list (string * Z)) (st : Store) : result Store :=
  match frame_info with
  | [] => inr st
  | (key, v) :: rest =>
      st <- append st (Some key) (inr (VInt v)) ;;
      info_loop rest st
  end.

(** [keys[frame_idx][button_idx]] *)
Definition key_at (keys : list (list bool)) (frame_idx button_idx : nat)
  : result pyval :=
  match nth_error keys frame_idx with
  | None => inl IndexError
  | Some row =>
      match nth_error row button_idx with
      | None => inl IndexError
      | Some b => inr (VBool b)
      end
  end.

(** Every entry of the caller's [actions] list that can be a key has a list
    of its own in the dictionary. *)
Definition buttons_own_lists (st : Store) : Prop :=
  forall v k, In v (actions_obj st) -> to_name v = Some k ->
              exists l, dget (repetition_variables st) k = Some (Seq l).

(** Lines 113-114, over the [actions] list as it is when the loop starts:
    every button that was in the list at line 107 has a list of its own in
    the dictionary since then, and what line 112 may have added to the
    caller's list is an [int], which is no key; so no [append] of this loop
    reaches the list it iterates over ([button_loop_keeps_actions] and
    [reformat_info_buttons_own_lists] below). *)
Fixpoint button_loop (frame_idx button_idx : nat) (actions : list pyval)
    (keys : list (list bool)) (st : Store) : result Store :=
  match actions with
  | [] => inr st
  | button :: rest =>
      match to_name button with
      | None => inl KeyError
      | Some k =>
          st <- append st k (key_at keys frame_idx button_idx) ;;
          button_loop frame_idx (S button_idx) rest keys st
      end
  end.

(** Lines 110-114 *)
Fixpoint frame_loop (frame_idx : nat) (info : list (list (string * Z)))
    (keys : list (list bool)) (st : Store) : result Store :=
  match info with
  | [] => inr st
  | frame_info :: rest =>
      st <- info_loop frame_info st ;;
      st <- button_loop frame_idx 0 (actions_obj st) keys st ;;
      frame_loop (S frame_idx) rest keys st
  end.

(** Lines 89-103: the dictionary before the per-frame lists are added. *)
Definition header (bk2_fpath : string) : dict slot :=
  let filename := basename bk2_fpath in
  let entities_dict := parse_entities filename in
  [ (Some "filename", Scalar (VStr bk2_fpath));
    (Some "level", Scalar (of_opt (dget entities_dict (Some "level"))));
    (Some "subject", Scalar (of_opt (dget entities_dict (Some "sub"))));
    (Some "session", Scalar (of_opt (dget entities_dict (Some "ses"))));
    (Some "actions", ActionsRef) ].

(** [frame_info.keys()] *)
Definition info_keys (frame_info : list (string * Z)) : list name :=
  map (fun kv => Some (fst kv)) frame_info.

(** [for k in ks: repetition_variables[k] = []] *)
Definition init_lists (ks : list name) (rv : dict slot) : dict slot :=
  fold_left (fun d k => dset d k (Seq [])) ks rv.

Definition reformat_info (info : list (list (string * Z)))
    (keys : list (list bool)) (bk2_fpath : string) (actions : list name)
  : result Store :=
  let rv := header bk2_fpath in
  match info with
  | [] => inl IndexError
  | first :: _ =>
      let rv := init_lists (info_keys first) rv in
      let rv := init_lists actions rv in
      frame_loop 0 info keys
        {| actions_obj := map of_name actions; repetition_variables := rv |}
  end.

(** *** get_variables_from_replay *)

Section Orchestration.

Variable R : Retro.

(** The locals the loop of lines 73-77 writes.  [annotations] starts as
    the empty dictionary and [actions] starts unbound. *)
Record Locals := {
  replay_frames : list (Frame R);
  replay_keys : list (list bool);
  replay_info : list (list (string * Z));
  replay_states : list bytes;
  annotations : option Annotations;
  actions : option (list name)
}.

Definition locals0 : Locals :=
  {| replay_frames := []; replay_keys := []; replay_info := [];
     replay_states := []; annotations := None; actions := None |}.

Definition body (l : Locals) (r : StepRecord R) : Locals :=
  {| replay_keys := replay_keys l ++ [rec_keys r];
     replay_info := replay_info l ++ [info (rec_annotations r)];
     replay_frames := replay_frames l ++ [rec_frame r];
     replay_states := replay_states l ++ [rec_state r];
     annotations := Some (rec_annotations r);
     actions := Some (rec_actions r) |}.

(** [annotations.get("done", False)] *)
Definition get_done (annotations : option Annotations) : bool :=
  match annotations with
  | Some a => done a
  | None => false
  end.

(** [None] when [fuel] pulls did not exhaust the replay. *)
Definition get_variables_from_replay (fuel : nat) (a : Args) (w : World)
  : option (World *
            result (Store * list (list (string * Z)) * list (Frame R) *
                    list bytes)) :=
  let replay := replay_bk2 R a in
  match for_loop R fuel body replay w locals0 with
  | (w, _, OutOfFuel _) => None
  | (w, _, Raised e _) => Some (w, inl e)
  | (w, _, Done l) =>
      match actions l with
      | None => Some (w, inl (UnboundLocalError "actions"))
      | Some acts =>
          match reformat_info (replay_info l) (replay_keys l)
                  (bk2_path a) acts with
          | inl e => Some (w, inl e)
          | inr repetition_variables =>
              let w :=
                if negb (get_done (annotations l)) then
                  logging WARNING
                    ("Done condition not satisfied for " ++ bk2_path a ++
                     ". Consider changing skip_first_step.")%string w
                else w in
              Some (w, inr (repetition_variables, replay_info l,
                            replay_frames l, replay_states l))
          end
      end
  end.

End Orchestration.

(** *** The replay as a function of the logged steps *)

(** Lines 39-42 on one logged step: per player, one key per button. *)
Definition step_keys (n_players nb : nat) (step : list (list bool))
  : list bool :=
  flat_map (fun p => map (fun i => nth i (nth p step []) false) (seq 0 nb))
           (seq 0 n_players).

(** [frame_info.get(key)] *)
Definition info_get (frame_info : list (string * Z)) (key : string)
  : option Z :=
  match find (fun kv => String.eqb key (fst kv)) frame_info with
  | Some kv => Some (snd kv)
  | None => None
  end.

(** The values of a key in the frames that have it, in the order of the
    frames. *)
Definition present_values (key : string) (info : list (list (string * Z)))
  : list pyval :=
  flat_map (fun frame_info => match info_get frame_info key with
                              | Some z => [VInt z]
                              | None => []
                              end) info.

Section Reference.

Variable R : Retro.

(** Lines 43-46 run on a list of key vectors, one emulator step for each:
    the records a replay yields, without the generator. *)
Fixpoint records_of (emulator : Emulator (Core R)) (actions : list name)
    (key_vectors : list (list bool)) : list (StepRecord R) :=
  match key_vectors with
  | [] => []
  | keys :: later =>
      let (emulator, out) := emulator_step R emulator keys in
      {| rec_frame := out_frame out; rec_keys := keys;
         rec_annotations :=
           {| reward := out_rew out; done := out_terminate out;
              info := out_info out |};
         rec_truncate := out_truncate out;
         rec_actions := actions;
         rec_state := core_get_state R (em emulator) |}
      :: records_of emulator actions later
  end.

(** The emulator a replay steps first: made, given the movie's start state,
    reset (lines 32-35). *)
Definition prepared (emulator : Emulator (Core R)) (movie : Movie)
  : Emulator (Core R) :=
  emulator_reset R (set_initial_state R emulator (movie_state movie)).

(** The logged steps a replay turns into records (lines 36-38). *)
Definition replayed_steps (a : Args) (movie : Movie)
  : list (list (list bool)) :=
  if skip_first_step a then tl (pending movie) else pending movie.

End Reference.

End Replay.

(** ** video.py *)

Module Video.

(** *** Files, external calls and the monad of the exporters *)

Inductive event :=
| Ev_log (l : level) (msg : string)
| Ev_mkdtemp (dir : string)
| Ev_encode (path : string) (fps : Z) (n_frames : nat)
| Ev_save (path : string) (format : option string) (n_frames : nat)
| Ev_write_wav (path : string) (sample_rate : Z)
| Ev_run (cmd : list string).

(** The files and directories that exist, and the external calls made so
    far. *)
Record World := {
  files : list string;
  dirs : list string;
  trace : list event
}.

Definition M (A : Type) : Type := World -> World * result A.

Definition ret {A} (a : A) : M A := fun w => (w, inr a).

Definition raise {A} (e : exn) : M A := fun w => (w, inl e).

Definition mbind {A B} (c : M A) (k : A -> M B) : M B :=
  fun w =>
    match c w with
    | (w, inl e) => (w, inl e)
    | (w, inr a) => k a w
    end.

Notation "'let*' x ':=' c 'in' k" := (mbind c (fun x => k))
  (at level 61, x pattern, c at next level, right associativity).
Notation "c ';;;' k" := (mbind c (fun _ => k))
  (at level 61, right associativity).

(** [try: c  except <caught>: handler] *)
Definition try_except {A} (c : M A) (caught : exn -> bool)
    (handler : exn -> M A) : M A :=
  fun w =>
    match c w with
    | (w, inl e) => if caught e then handler e w else (w, inl e)
    | (w, inr a) => (w, inr a)
    end.

(** [try: c  finally: cleanup]: the cleanup always runs; an exception of
    the cleanup replaces the outcome of [c]. *)
Definition try_finally {A} (c : M A) (cleanup : M unit) : M A :=
  fun w =>
    match c w with
    | (w, r) =>
        match cleanup w with
        | (w, inl e) => (w, inl e)
        | (w, inr _) => (w, r)
        end
    end.

Definition emit (e : event) : M unit :=
  fun w => ({| files := files w; dirs := dirs w; trace := trace w ++ [e] |},
            inr tt).

Definition logging (l : level) (msg : string) : M unit := emit (Ev_log l msg).

Definition mem (p : string) (l : list string) : bool :=
  existsb (String.eqb p) l.

Definition without (p : string) (l : list string) : list string :=
  filter (fun q => negb (String.eqb p q)) l.

(** [Path(d) / n] *)
Definition joinpath (d n : string) : string := (d ++ "/" ++ n)%string.

(** The file [f] lies under the directory [d]. *)
Definition in_dir (d f : string) : bool := String.prefix (d ++ "/")%string f.

Definition touch (p : string) : M unit :=
  fun w => ({| files := without p (files w) ++ [p]; dirs := dirs w;
               trace := trace w |}, inr tt).

Definition mkdir (d : string) : M unit :=
  fun w => ({| files := files w; dirs := dirs w ++ [d]; trace := trace w |},
            inr tt).

(** [p.unlink(missing_ok=True)] *)
Definition unlink (p : string) : M unit :=
  fun w => ({| files := without p (files w); dirs := dirs w;
               trace := trace w |}, inr tt).

(** [os.rmdir(d)]: the directory has to exist and to be empty. *)
Definition rmdir (d : string) : M unit :=
  fun w =>
    if negb (mem d (dirs w)) then (w, inl FileNotFoundError)
    else if existsb (in_dir d) (files w) then (w, inl OSError)
    else ({| files := files w; dirs := without d (dirs w);
             trace := trace w |}, inr tt).

(** [except OSError], of which [FileNotFoundError] is a subclass. *)
Definition is_OSError (e : exn) : bool :=
  match e with
  | OSError | FileNotFoundError => true
  | _ => false
  end.

Definition is_FileNotFoundError (e : exn) : bool :=
  match e with
  | FileNotFoundError => true
  | _ => false
  end.

(** *** The libraries and the encoder binary *)

Inductive run_outcome :=
| NotFound
| Exit (returncode : Z).

(** What the calls out of the module do: the name [tempfile.mkdtemp]
    picks; whether [Image.save] raises; whether the video writer (its
    construction, a [writeFrame] or its [close]) raises and, if not, whether
    it left a file; whether a writer that raises had left a file by then;
    what stands in the way of moving an existing file onto a destination
    (another file system, a missing directory, a directory of that name);
    how the [ffmpeg] process ends. *)
Record Host := {
  mkdtemp_name : string -> string;
  pil_save : string -> option string -> nat -> result unit;
  ffmpeg_writer : string -> Z -> nat -> result bool;
  writer_leaves_file : string -> Z -> nat -> bool;
  replace_error : string -> string -> option exn;
  subprocess_run : list string -> run_outcome
}.

Inductive dtype := int16 | float32 | float64 | other_dtype.

Definition dtype_eqb (a b : dtype) : bool :=
  match a, b with
  | int16, int16 | float32, float32 | float64, float64
  | other_dtype, other_dtype => true
  | _, _ => false
  end.

(** An audio array; the values of its samples play no part below. *)
Record Audio := { audio_dtype : dtype; n_samples : nat }.

Definition astype (a : Audio) (d : dtype) : Audio :=
  {| audio_dtype := d; n_samples := n_samples a |}.

(** Modelled from the spec: [write_wav] is imported from the replay module
    and called by [make_mp4], but defined nowhere in the repository; by the
    spec the exporter writes a temporary waveform file with it. *)
Definition write_wav (audio : Audio) (sample_rate : Z) (path : string)
  : M unit :=
  touch path ;;; emit (Ev_write_wav path sample_rate).

(** Lines 69-82 *)
Definition mux_cmd (temp_video temp_audio final_path : string) : list string :=
  ["ffmpeg"; "-y"; "-i"; temp_video; "-i"; temp_audio; "-c:v"; "copy";
   "-c:a"; "aac"; "-shortest"; final_path].

(** The directory of the temporary files and the two files. *)
Definition temp_dir_of (H : Host) : string :=
  mkdtemp_name H "cneuromod_vg_utils_".

Definition temp_video_of (H : Host) : string :=
  joinpath (temp_dir_of H) "video_only.mp4".

Definition temp_audio_of (H : Host) : string :=
  joinpath (temp_dir_of H) "audio.wav".

(** What [mkdtemp] guarantees of the directory it makes: it is new, so that
    no file is under it yet, and the output path is not under it either. *)
Definition temp_dir_is_new (H : Host) (final_path : string) (w : World)
  : Prop :=
  existsb (in_dir (temp_dir_of H)) (files w) = false /\
  in_dir (temp_dir_of H) final_path = false.

(** [str(Path(s))], line 55 with lines 58 and 81: pathlib keeps a leading
    slash (two of them when there are exactly two), drops the empty and the
    ["."] components, joins what is left with single slashes, and writes the
    path without any component as ["."]. *)
Definition root_of (s : string) : string :=
  match s with
  | String "/" (String "/" (String "/" _)) => "/"
  | String "/" (String "/" _) => "//"
  | String "/" _ => "/"
  | _ => EmptyString
  end.

Definition is_part (tok : string) : bool :=
  negb (String.eqb tok EmptyString || String.eqb tok ".").

Definition Path (s : string) : string :=
  match root_of s, filter is_part (Replay.split "/" s) with
  | EmptyString, [] => "."
  | root, parts => (root ++ String.concat "/" parts)%string
  end.

Section Exporters.

Variable H : Host.
Variable Frame : Type.

(** [tempfile.mkdtemp(prefix=...)] *)
Definition tempfile_mkdtemp (prefix : string) : M string :=
  let d := mkdtemp_name H prefix in
  mkdir d ;;; emit (Ev_mkdtemp d) ;;; ret d.

(** [Image.fromarray(np.uint8(img), "RGB")], one image per frame. *)
Definition fromarray (img : Frame) : Frame := img.

(** [frame_list[0].save(movie_fname, format, save_all=True, ...)] *)
Definition save (movie_fname : string) (format : option string)
    (frame_list : list Frame) : M unit :=
  emit (Ev_save movie_fname format (List.length frame_list)) ;;;
  match pil_save H movie_fname format (List.length frame_list) with
  | inl e => raise e
  | inr _ => touch movie_fname
  end.

(** Lines 46-53: the writer, one [writeFrame] per frame, [close].  An
    error of one of these calls leaves the function at once, with whatever
    the writer had put on the disk by then. *)
Definition write_video (temp_video : string) (fps : Z)
    (selected_frames : list Frame) : M unit :=
  emit (Ev_encode temp_video fps (List.length selected_frames)) ;;;
  match ffmpeg_writer H temp_video fps (List.length selected_frames) with
  | inl e =>
      (if writer_leaves_file H temp_video fps (List.length selected_frames)
       then touch temp_video else ret tt) ;;;
      raise e
  | inr true => touch temp_video
  | inr false => ret tt
  end.

(** [src.replace(dst)], that is [os.replace]: without the source file it
    raises [FileNotFoundError]; with it, the move can still fail on the
    destination. *)
Definition replace (src dst : string) : M unit :=
  fun w =>
    if mem src (files w) then
      match replace_error H src dst with
      | Some e => (w, inl e)
      | None =>
          ({| files := without dst (without src (files w)) ++ [dst];
              dirs := dirs w; trace := trace w |}, inr tt)
      end
    else (w, inl FileNotFoundError).

(** [subprocess.run(cmd, check=True, ...)]; a run that exits with 0 has
    written its output file, the last word of [cmd]. *)
Definition run_checked (cmd : list string) : M unit :=
  emit (Ev_run cmd) ;;;
  match subprocess_run H cmd with
  | NotFound => raise FileNotFoundError
  | Exit code =>
      if Z.eqb code 0 then touch (last cmd EmptyString)
      else raise (CalledProcessError code)
  end.

Definition make_gif (selected_frames : list Frame) (movie_fname : string)
  : M unit :=
  let frame_list := map fromarray selected_frames in
  match frame_list with
  | [] =>
      logging WARNING ("No frames to save in " ++ movie_fname)%string ;;;
      ret tt
  | _ :: _ => save movie_fname None frame_list
  end.

(** Lines 89-94, the body of the [finally]. *)
Definition cleanup (temp_dir temp_video temp_audio : string) : M unit :=
  try_except
    (unlink temp_audio ;;; unlink temp_video ;;; rmdir temp_dir)
    is_OSError (fun _ => ret tt).

(** Lines 84-94 *)
Definition mux (temp_dir temp_video temp_audio : string) (cmd : list string)
  : M unit :=
  try_finally
    (try_except (run_checked cmd) is_FileNotFoundError
       (fun _ =>
          raise (RuntimeError
                   "ffmpeg binary is required to mux audio into MP4")))
    (cleanup temp_dir temp_video temp_audio).

Definition make_mp4 (selected_frames : list Frame) (movie_fname : string)
    (audio : option Audio) (sample_rate : option Z) (fps : Z) : M unit :=
  let* temp_dir := tempfile_mkdtemp "cneuromod_vg_utils_" in
  let temp_video := joinpath temp_dir "video_only.mp4" in
  write_video temp_video fps selected_frames ;;;
  let final_path := Path movie_fname in
  match audio, sample_rate with
  | Some audio, Some sample_rate =>
      let* audio :=
        (if negb (dtype_eqb (audio_dtype audio) int16) then
           logging INFO "Casting audio to int16 before muxing" ;;;
           ret (astype audio int16)
         else ret audio) in
      let temp_audio := joinpath temp_dir "audio.wav" in
      write_wav audio sample_rate temp_audio ;;;
      let cmd := mux_cmd temp_video temp_audio final_path in
      mux temp_dir temp_video temp_audio cmd
  | _, _ =>
      replace temp_video final_path ;;;
      rmdir temp_dir ;;;
      ret tt
  end.

Definition make_webp (selected_frames : list Frame) (movie_fname : string)
  : M unit :=
  let frame_list := map fromarray selected_frames in
  match frame_list with
  | [] =>
      logging WARNING ("No frames to save in " ++ movie_fname)%string ;;;
      ret tt
  | _ :: _ => save movie_fname (Some "WEBP") frame_list
  end.

End Exporters.

End Video.

(** ** The package: what importing its modules binds *)

Module Package.

(** The top-level statements of a module, as far as they bind names. *)
Inductive stmt :=
| Import (module : string) (bound : string)
| FromImport (module : string) (nm : string)
| FromSibling (module : string) (nm : string)
| Def (nm : string).

(** replay.py: lines 1-4, 6, 50 and 87. *)
Definition replay_py : list stmt :=
  [ Import "retro" "retro";
    Import "logging" "logging";
    FromImport "retro.enums" "State";
    Import "os.path" "op";
    Def "replay_bk2";
    Def "get_variables_from_replay";
    Def "reformat_info" ].

(** video.py: lines 1-12, 15, 33 and 97. *)
Definition video_py : list stmt :=
  [ Import "logging" "logging";
    Import "os" "os";
    Import "subprocess" "subprocess";
    Import "tempfile" "tempfile";
    FromImport "pathlib" "Path";
    FromImport "typing" "Iterable";
    Import "numpy" "np";
    Import "skvideo.io" "skvideo";
    FromImport "PIL" "Image";
    FromSibling "replay" "write_wav";
    Def "make_gif";
    Def "make_mp4";
    Def "make_webp" ].

Definition defines (src : list stmt) (nm : string) : bool :=
  existsb (fun s => match s with
                    | Def n => String.eqb n nm
                    | _ => false
                    end) src.

Definition bound (ns : list string) (nm : string) : bool :=
  existsb (String.eqb nm) ns.

(** Running a module body: the standard library and the third-party
    packages are taken to import; [from .m import n] runs the sibling
    [m] and needs [n] among the names it binds. *)
Definition exec_stmt (sibling : string -> result (list string))
    (ns : list string) (s : stmt) : result (list string) :=
  match s with
  | Import _ b => inr (ns ++ [b])
  | FromImport _ n => inr (ns ++ [n])
  | FromSibling m n =>
      names <- sibling m ;;
      if bound names n then inr (ns ++ [n]) else inl (ImportError n)
  | Def n => inr (ns ++ [n])
  end.

Definition exec_module (sibling : string -> result (list string))
    (src : list stmt) : result (list string) :=
  fold_left (fun acc s => ns <- acc ;; exec_stmt sibling ns s) src (inr []).

Definition import_replay : result (list string) :=
  exec_module (fun m => inl (ImportError m)) replay_py.

Definition import_video : result (list string) :=
  exec_module
    (fun m => if String.eqb m "replay" then import_replay
              else inl (ImportError m))
    video_py.

(** [from cneuromod_vg_utils.video import f], or [video.f]. *)
Definition from_video (f : string) : result string :=
  ns <- import_video ;;
  if bound ns f then inr f else inl AttributeError.

End Package.

(** ** Concrete movies, emulators and hosts *)

Module Examples.

Import Replay.

Definition nes_buttons : list name :=
  [Some "B"; None; Some "SELECT"; Some "START"; Some "UP"; Some "DOWN";
   Some "LEFT"; Some "RIGHT"; Some "A"].

Definition movie_of (input_log : list (list (list bool))) : Movie :=
  {| movie_game := "SuperMarioBros-Nes"; movie_state := [];
     players := 1; pending := input_log; current := [] |}.

Definition nes : Emulator nat :=
  {| buttons := nes_buttons; num_buttons := 9; initial_state := []; em := 0 |}.

(** A library whose every movie file holds [input_log] and whose core
    counts the frames it has run. *)
Definition counting (input_log : list (list (list bool))) : Retro :=
  {| Frame := nat;
     Core := nat;
     retro_Movie := fun _ => inr (movie_of input_log);
     retro_make := fun _ _ _ _ _ => inr nes;
     core_reset := fun _ _ => 0;
     core_step := fun c keys =>
       (S c, {| out_frame := c; out_rew := 0; out_terminate := false;
                out_truncate := false;
                out_info := [("score", Z.of_nat c)] |});
     core_get_state := fun _ => [] |}.

Definition press_right : list (list bool) :=
  [[false; false; false; false; false; false; false; true; false]].

Definition args (skip : bool) : Args :=
  {| bk2_path := "sub-01_ses-02_level-W1_run-1.bk2"; skip_first_step := skip;
     state := State_DEFAULT; game := None; scenario := None;
     inttype := CUSTOM_ONLY |}.

(** A host with the encoder binary, whose run exits with [code], or without
    it ([None]); the video writer leaves its file. *)
Definition host (ffmpeg : option Z) : Video.Host :=
  {| Video.mkdtemp_name := fun prefix => ("/tmp/" ++ prefix ++ "k3x9")%string;
     Video.pil_save := fun _ _ _ => inr tt;
     Video.ffmpeg_writer := fun _ _ _ => inr true;
     Video.writer_leaves_file := fun _ _ _ => false;
     Video.replace_error := fun _ _ => None;
     Video.subprocess_run := fun _ =>
       match ffmpeg with
       | Some code => Video.Exit code
       | None => Video.NotFound
       end |}.

Definition nothing_yet : Video.World :=
  {| Video.files := []; Video.dirs := ["/tmp"]; Video.trace := [] |}.

Definition beep : Video.Audio :=
  {| Video.audio_dtype := Video.float32; Video.n_samples := 735 |}.

(** Two frames of telemetry, their key rows and two buttons. *)
Definition two_frames : list (list (string * Z)) :=
  [ [("score", 0%Z); ("lives", 3%Z)]; [("lives", 3%Z); ("score", 100%Z)] ].

Definition two_rows : list (list bool) := [[true; false]; [false; true]].

Definition two_buttons : list name := [Some "B"; None].

(** A second frame that lacks the key of the first. *)
Definition score_dropped : list (list (string * Z)) := [ [("score", 1%Z)]; [] ].

(** A library in which the game of the movie has no integration: making the
    emulator fails. *)
Definition no_integration (input_log : list (list (list bool))) : Retro :=
  {| Frame := nat;
     Core := nat;
     retro_Movie := fun _ => inr (movie_of input_log);
     retro_make := fun _ _ _ _ _ => inl FileNotFoundError;
     core_reset := fun _ _ => 0;
     core_step := fun c keys =>
       (S c, {| out_frame := c; out_rew := 0; out_terminate := false;
                out_truncate := false; out_info := [] |});
     core_get_state := fun _ => [] |}.

(** A host whose video writer ends as given. *)
Definition host_with_writer (writer : result bool) : Video.Host :=
  {| Video.mkdtemp_name := fun prefix => ("/tmp/" ++ prefix ++ "k3x9")%string;
     Video.pil_save := fun _ _ _ => inr tt;
     Video.ffmpeg_writer := fun _ _ _ => writer;
     Video.writer_leaves_file := fun _ _ _ => false;
     Video.replace_error := fun _ _ => None;
     Video.subprocess_run := fun _ => Video.Exit 0 |}.

(** A host whose video writer raises [e] after it has created its file. *)
Definition host_with_broken_writer (e : exn) : Video.Host :=
  {| Video.mkdtemp_name := fun prefix => ("/tmp/" ++ prefix ++ "k3x9")%string;
     Video.pil_save := fun _ _ _ => inr tt;
     Video.ffmpeg_writer := fun _ _ _ => inl e;
     Video.writer_leaves_file := fun _ _ _ => true;
     Video.replace_error := fun _ _ => None;
     Video.subprocess_run := fun _ => Video.Exit 0 |}.

(** A host on which no file can be moved onto its destination, say because
    the directory of the destination does not exist. *)
Definition host_without_destination : Video.Host :=
  {| Video.mkdtemp_name := fun prefix => ("/tmp/" ++ prefix ++ "k3x9")%string;
     Video.pil_save := fun _ _ _ => inr tt;
     Video.ffmpeg_writer := fun _ _ _ => inr true;
     Video.writer_leaves_file := fun _ _ _ => false;
     Video.replace_error := fun _ _ => Some FileNotFoundError;
     Video.subprocess_run := fun _ => Video.Exit 0 |}.

(** Three frames, the second without [lives]. *)
Definition lives_dropped : list (list (string * Z)) :=
  [ [("score", 1%Z); ("lives", 3%Z)]; [("score", 2%Z)];
    [("score", 3%Z); ("lives", 2%Z)] ].

Definition three_rows : list (list bool) :=
  [[true; false]; [false; true]; [true; true]].

(** A second frame with a key the first lacks. *)
Definition lives_added : list (list (string * Z)) :=
  [ [("score", 1%Z)]; [("score", 2%Z); ("lives", 3%Z)] ].

(** A list of buttons with two unnamed entries, and key rows for it. *)
Definition doubled_buttons : list name := [Some "B"; None; None].

Definition wide_rows : list (list bool) :=
  [[true; false; true]; [false; true; true]].

End Examples.

(** * Properties *)

(** ** Dictionaries *)

Section DictFacts.

Lemma name_eqb_spec a b : reflect (a = b) (name_eqb a b).
Proof.
  destruct a as [x|], b as [y|]; simpl; try (constructor; congruence).
  destruct (String.eqb_spec x y); constructor; congruence.
Qed.

Lemma name_eqb_refl a : name_eqb a a = true.
Proof. destruct (name_eqb_spec a a); congruence. Qed.

Lemma name_eqb_neq a b : a <> b -> name_eqb a b = false.
Proof. destruct (name_eqb_spec a b); congruence. Qed.

Context {V : Type}.

Lemma dget_dset_same (d : dict V) k v : dget (dset d k v) k = Some v.
Proof.
  induction d as [|[k' v'] rest IH]; simpl.
  - now rewrite name_eqb_refl.
  - destruct (name_eqb k' k) eqn:E; simpl; rewrite E; auto.
Qed.

Lemma dget_dset_other (d : dict V) k k' v :
  k <> k' -> dget (dset d k v) k' = dget d k'.
Proof.
  intros Hne. induction d as [|[k0 v0] rest IH]; simpl.
  - now rewrite name_eqb_neq.
  - destruct (name_eqb_spec k0 k) as [->|Hk]; simpl.
    + now rewrite (name_eqb_neq k k').
    + now rewrite IH.
Qed.

End DictFacts.

(** ** The movie replayer *)

Section ReplayerFacts.

Import Replay.

Variable R : Retro.

Lemma flat_map_const_length {A B} (f : A -> list B) (k : nat) (l : list A) :
  (forall x, length (f x) = k) -> length (flat_map f l) = length l * k.
Proof.
  intros Hf. induction l as [|x l IH]; simpl; auto.
  rewrite length_app, Hf, IH. reflexivity.
Qed.

Lemma read_keys_length (movie : Movie) (nb : nat) :
  length (read_keys movie nb) = players movie * nb.
Proof.
  unfold read_keys.
  rewrite (flat_map_const_length _ nb).
  - now rewrite length_seq.
  - intros p. now rewrite length_map, length_seq.
Qed.

Lemma fold_left_snoc {A} (l acc : list A) :
  fold_left (fun acc r => acc ++ [r]) l acc = acc ++ l.
Proof.
  revert acc. induction l as [|x l IH]; intros acc; simpl.
  - now rewrite app_nil_r.
  - rewrite IH, <- app_assoc. reflexivity.
Qed.

(** From a suspended generator, a loop with enough fuel pulls one record per
    pending step of the movie and ends with both handles released. *)
Lemma for_loop_suspended {S : Type} (body : S -> StepRecord R -> S) :
  forall (l : list (list (list bool))) movie emulator actions w s fuel,
    pending movie = l ->
    length l < fuel ->
    exists recs,
      length recs = length l /\
      Forall (fun r => length (rec_keys r)
                       = players movie * num_buttons emulator
                       /\ rec_actions r = actions) recs /\
      for_loop R fuel body (Suspended R movie emulator actions) w s
      = (set_movie_h Released (set_emulator_h Released w), Finished R,
         Done (fold_left body recs s)).
Proof.
  induction l as [|now later IH]; intros movie emulator actions w s fuel Hp Hf;
    destruct fuel as [|fuel]; try (simpl in Hf; lia).
  - exists []. repeat split; auto.
    simpl. unfold loop, movie_step. rewrite Hp. reflexivity.
  - simpl. unfold loop, movie_step, emulator_step. rewrite Hp.
    match goal with
    | |- context [core_step R ?c ?k] =>
        destruct (core_step R c k) as [core out] eqn:Hstep
    end.
    match goal with
    | |- context [for_loop R fuel body (Suspended R ?m ?e ?a) w ?s'] =>
        destruct (IH m e a w s' fuel) as (recs & Hlen & Hall & Hrun);
        [reflexivity | simpl in Hf; lia |]
    end.
    simpl in Hall.
    eexists (_ :: recs). split; [simpl; now rewrite Hlen|].
    split; [|simpl; exact Hrun].
    constructor; [|exact Hall].
    simpl. split; [|reflexivity].
    now rewrite read_keys_length.
Qed.

(** The locals of the generator when it first reaches its loop. *)
Lemma start_loop (a : Args) (w : World) movie emulator :
  retro_Movie R (bk2_path a) = inr movie ->
  retro_make R (resolve_game a movie) (state a) (scenario a) (inttype a) false
  = inr emulator ->
  start R a w
  = loop R (if skip_first_step a then snd (movie_step movie) else movie)
      (emulator_reset R (set_initial_state R emulator (movie_state movie)))
      (buttons emulator)
      (set_emulator_h Held
         (logging DEBUG
            ("Creating emulator for game: " ++ resolve_game a movie)%string
            (set_movie_h Held w))).
Proof.
  intros Hm Hmk. unfold start. rewrite Hm, Hmk. reflexivity.
Qed.

Lemma for_loop_created {S : Type} (body : S -> StepRecord R -> S)
    (a : Args) (w : World) (s : S) (fuel : nat) movie emulator :
  retro_Movie R (bk2_path a) = inr movie ->
  retro_make R (resolve_game a movie) (state a) (scenario a) (inttype a) false
  = inr emulator ->
  for_loop R (Datatypes.S fuel) body (replay_bk2 R a) w s
  = for_loop R (Datatypes.S fuel) body
      (Suspended R (if skip_first_step a then snd (movie_step movie) else movie)
         (emulator_reset R (set_initial_state R emulator (movie_state movie)))
         (buttons emulator))
      (set_emulator_h Held
         (logging DEBUG
            ("Creating emulator for game: " ++ resolve_game a movie)%string
            (set_movie_h Held w))) s.
Proof.
  intros Hm Hmk. unfold replay_bk2. simpl.
  now rewrite (start_loop a w movie emulator Hm Hmk).
Qed.

Lemma movie_step_pending (movie : Movie) :
  pending (snd (movie_step movie)) = tl (pending movie).
Proof.
  unfold movie_step. destruct (pending movie) eqn:Hp; simpl; auto.
Qed.

Lemma movie_step_players (movie : Movie) :
  players (snd (movie_step movie)) = players movie.
Proof. unfold movie_step. destruct (pending movie); reflexivity. Qed.

(** A whole replay, for any loop body. *)
Lemma for_loop_replay {S : Type} (body : S -> StepRecord R -> S)
    (a : Args) (w : World) (s : S) (fuel : nat) movie emulator :
  retro_Movie R (bk2_path a) = inr movie ->
  retro_make R (resolve_game a movie) (state a) (scenario a) (inttype a) false
  = inr emulator ->
  length (pending movie) < fuel ->
  exists w' recs,
    for_loop R fuel body (replay_bk2 R a) w s
    = (w', Finished R, Done (fold_left body recs s)) /\
    both_released w' /\
    length recs
    = length (if skip_first_step a then tl (pending movie) else pending movie) /\
    Forall (fun r => length (rec_keys r)
                     = players movie * num_buttons emulator
                     /\ rec_actions r = buttons emulator) recs.
Proof.
  intros Hm Hmk Hf.
  destruct fuel as [|fuel]; [lia|].
  rewrite (for_loop_created body a w s fuel movie emulator Hm Hmk).
  match goal with
  | |- context [for_loop R _ body (Suspended R ?m ?e ?ac) ?w0 s] =>
      destruct (for_loop_suspended body (pending m) m e ac w0 s
                  (Datatypes.S fuel) eq_refl) as (recs & Hlen & Hall & Hrun)
  end.
  - destruct (skip_first_step a); [rewrite movie_step_pending|]; auto.
    destruct (pending movie); simpl in *; lia.
  - eexists _, recs. split; [exact Hrun|].
    split; [split; reflexivity|].
    split.
    + rewrite Hlen. destruct (skip_first_step a); auto.
      now rewrite movie_step_pending.
    + simpl in Hall.
      destruct (skip_first_step a); [rewrite movie_step_players in Hall|];
        exact Hall.
Qed.

(** What a loop pulls does not depend on its body. *)
Lemma for_loop_any_body {S : Type} (body : S -> StepRecord R -> S) :
  forall fuel g w acc s w' g' recs,
    for_loop R fuel (fun acc r => acc ++ [r]) g w acc = (w', g', Done recs) ->
    exists pulled,
      recs = acc ++ pulled /\
      for_loop R fuel body g w s = (w', g', Done (fold_left body pulled s)).
Proof.
  induction fuel as [|fuel IH]; intros g w acc s w' g' recs Hrun;
    simpl in Hrun; [discriminate|].
  simpl. destruct (gen_next R g w) as [[w1 g1] [r| |e]].
  - destruct (IH g1 w1 (acc ++ [r]) (body s r) w' g' recs Hrun)
      as (pulled & -> & Hb).
    exists (r :: pulled). split; [now rewrite <- app_assoc|exact Hb].
  - inversion Hrun; subst. exists []. split; [now rewrite app_nil_r|reflexivity].
  - discriminate.
Qed.

(** A consumer that stops after [k] records, with at least [k] steps pending:
    the generator is closed at its [yield] and the world is as it was. *)
Lemma take_then_stop_suspended :
  forall k movie emulator actions w acc,
    k <= length (pending movie) ->
    exists recs,
      length recs = k /\
      take_then_stop R k (Suspended R movie emulator actions) w acc
      = (w, Finished R, acc ++ recs).
Proof.
  induction k as [|k IH]; intros movie emulator actions w acc Hk.
  - exists []. split; [reflexivity|]. simpl. now rewrite app_nil_r.
  - simpl. unfold loop, movie_step, emulator_step.
    destruct (pending movie) as [|now later] eqn:Hp; [simpl in Hk; lia|].
    match goal with
    | |- context [core_step R ?c ?ks] =>
        destruct (core_step R c ks) as [core out] eqn:Hstep
    end.
    match goal with
    | |- context [take_then_stop R k (Suspended R ?m ?e ?a) w ?acc'] =>
        destruct (IH m e a w acc') as (recs & Hlen & Hrun);
        [simpl in *; lia|]
    end.
    rewrite Hrun. eexists (_ :: recs).
    split; [simpl; now rewrite Hlen|].
    now rewrite <- app_assoc.
Qed.

End ReplayerFacts.

(** ** Claims about the replayer *)

Section ReplayerClaims.

Import Replay Examples.

(** C1, as amended.  When the movie file opens and the emulator is made, a
    replay of a movie with N loggable steps yields, with [skip_first_step]
    disabled, exactly N records, each with a key vector of length players
    times buttons; with [skip_first_step] enabled it yields N-1 records of
    the same shape when N is at least 1, and none when the movie is empty. *)
Theorem replay_bk2_record_count (R : Retro) (a : Args) (w : World)
    (fuel : nat) movie emulator :
  retro_Movie R (bk2_path a) = inr movie ->
  retro_make R (resolve_game a movie) (state a) (scenario a) (inttype a) false
  = inr emulator ->
  length (pending movie) < fuel ->
  exists w_off recs_off w_on recs_on,
    collect R fuel (replay_bk2 R (with_skip a false)) w
    = (w_off, Finished R, Done recs_off) /\
    length recs_off = length (pending movie) /\
    Forall (fun r => length (rec_keys r)
                     = players movie * num_buttons emulator) recs_off /\
    collect R fuel (replay_bk2 R (with_skip a true)) w
    = (w_on, Finished R, Done recs_on) /\
    (pending movie <> [] -> S (length recs_on) = length (pending movie)) /\
    (pending movie = [] -> recs_on = []) /\
    Forall (fun r => length (rec_keys r)
                     = players movie * num_buttons emulator) recs_on.
Proof.
  intros Hm Hmk Hf.
  destruct (for_loop_replay R (fun acc r => acc ++ [r]) (with_skip a false)
              w [] fuel movie emulator Hm Hmk Hf)
    as (w_off & recs_off & Hoff & _ & Hlen_off & Hall_off).
  destruct (for_loop_replay R (fun acc r => acc ++ [r]) (with_skip a true)
              w [] fuel movie emulator Hm Hmk Hf)
    as (w_on & recs_on & Hon & _ & Hlen_on & Hall_on).
  rewrite fold_left_snoc in Hoff, Hon. simpl in Hoff, Hon, Hlen_off, Hlen_on.
  exists w_off, recs_off, w_on, recs_on.
  split; [exact Hoff|]. split; [exact Hlen_off|].
  split; [eapply Forall_impl; [|exact Hall_off]; intros r [Hr _]; exact Hr|].
  split; [exact Hon|].
  split; [|split].
  - intros Hne. rewrite Hlen_on. destruct (pending movie); [congruence|reflexivity].
  - intros He. rewrite He in Hlen_on. now destruct recs_on.
  - eapply Forall_impl; [|exact Hall_on]. intros r [Hr _]. exact Hr.
Qed.

Lemma replay_bk2_record_count_witness :
  exists w_off recs_off w_on recs_on,
    collect (counting [press_right; press_right]) 3
      (replay_bk2 _ (with_skip (args false) false)) fresh
    = (w_off, Finished _, Done recs_off) /\
    length recs_off = 2 /\
    Forall (fun r => length (rec_keys r) = 1 * 9) recs_off /\
    collect (counting [press_right; press_right]) 3
      (replay_bk2 _ (with_skip (args false) true)) fresh
    = (w_on, Finished _, Done recs_on) /\
    ([press_right; press_right] <> [] -> S (length recs_on) = 2) /\
    ([press_right; press_right] = [] -> recs_on = []) /\
    Forall (fun r => length (rec_keys r) = 1 * 9) recs_on.
Proof.
  apply (replay_bk2_record_count (counting [press_right; press_right])
           (args false) fresh 3 (movie_of [press_right; press_right]) nes).
  - reflexivity.
  - reflexivity.
  - simpl. lia.
Defined.

(** C1, as stated, fails on the empty movie: with [skip_first_step] enabled
    the replay yields no record, as it does with it disabled, which is not
    one fewer. *)
Lemma replay_bk2_skip_on_empty_movie :
  ~ (forall n_off n_on,
       count_records (counting []) 1 (args false) = Some n_off ->
       count_records (counting []) 1 (args true) = Some n_on ->
       Z.of_nat n_on = (Z.of_nat n_off - 1)%Z).
Proof.
  intros H. specialize (H 0 0 eq_refl eq_refl). discriminate H.
Qed.

(** C3.  What [replay_bk2] does on its two exit paths, when the movie file
    opens and the emulator is made.  A consumer that exhausts the replay,
    the replay without any record included, gets control back after lines
    47-48 have run: the emulator session and the movie are both released.
    A consumer that stops after k records, for any k from 1 to the number of
    records of the replay, closes the generator at the [yield] of line 46:
    lines 47-48, which stand after the loop and in no [finally], are not run,
    and [replay_bk2] has released neither the emulator session nor the
    movie.  The release the claim requires on that path is missing from the
    code. *)
Theorem replay_bk2_release (R : Retro) (a : Args) (w : World)
    (fuel : nat) movie emulator :
  retro_Movie R (bk2_path a) = inr movie ->
  retro_make R (resolve_game a movie) (state a) (scenario a) (inttype a) false
  = inr emulator ->
  length (pending movie) < fuel ->
  (exists w' recs,
     collect R fuel (replay_bk2 R a) w = (w', Finished R, Done recs) /\
     both_released w') /\
  (forall k,
     1 <= k ->
     k <= length (if skip_first_step a then tl (pending movie)
                  else pending movie) ->
     exists w' recs,
       take_then_stop R k (replay_bk2 R a) w [] = (w', Finished R, recs) /\
       length recs = k /\
       movie_h w' = Held /\ emulator_h w' = Held).
Proof.
  intros Hm Hmk Hf. split.
  - destruct (for_loop_replay R (fun acc r => acc ++ [r]) a w [] fuel
                movie emulator Hm Hmk Hf) as (w' & recs & Hrun & Hrel & _).
    exists w', (fold_left (fun acc r => acc ++ [r]) recs []).
    split; [exact Hrun|exact Hrel].
  - intros k Hk1 Hk. destruct k as [|k]; [lia|].
    match type of Hk with
    | _ <= length ?l =>
        assert (Hp : pending (if skip_first_step a
                              then snd (movie_step movie) else movie) = l)
    end.
    { destruct (skip_first_step a); [apply movie_step_pending|reflexivity]. }
    rewrite <- Hp in Hk.
    match goal with
    | |- context [take_then_stop R _ _ w ?acc] =>
        destruct (take_then_stop_suspended R (S k) _
                    (emulator_reset R
                       (set_initial_state R emulator (movie_state movie)))
                    (buttons emulator)
                    (set_emulator_h Held
                       (logging DEBUG
                          ("Creating emulator for game: "
                           ++ resolve_game a movie)%string
                          (set_movie_h Held w)))
                    acc Hk) as (recs & Hlen & Hrun)
    end.
    eexists _, recs. split.
    { unfold replay_bk2. simpl take_then_stop.
      rewrite (start_loop R a w movie emulator Hm Hmk).
      simpl take_then_stop in Hrun. exact Hrun. }
    split; [exact Hlen|split; reflexivity].
Qed.

Lemma replay_bk2_release_witness :
  (exists w' recs,
     collect (counting []) 1 (replay_bk2 _ (args false)) fresh
     = (w', Finished _, Done recs) /\
     both_released w') /\
  (exists w' recs,
     collect (counting [press_right; press_right]) 3
       (replay_bk2 _ (args false)) fresh
     = (w', Finished _, Done recs) /\
     both_released w') /\
  (exists w' recs,
     take_then_stop (counting [press_right; press_right]) 1
       (replay_bk2 _ (args false)) fresh []
     = (w', Finished _, recs) /\
     length recs = 1 /\
     movie_h w' = Held /\ emulator_h w' = Held).
Proof.
  split; [|split].
  - apply (replay_bk2_release (counting []) (args false) fresh 1
             (movie_of []) nes); [reflexivity|reflexivity|simpl; lia].
  - apply (replay_bk2_release (counting [press_right; press_right])
             (args false) fresh 3 (movie_of [press_right; press_right]) nes);
      [reflexivity|reflexivity|simpl; lia].
  - apply (replay_bk2_release (counting [press_right; press_right])
             (args false) fresh 3 (movie_of [press_right; press_right]) nes);
      [reflexivity|reflexivity|simpl; lia|lia|simpl; lia].
Defined.

(** C3 at the failing input: a movie of two steps, a consumer that takes one
    record and stops.  The generator is closed and neither the emulator
    session nor the movie has been released. *)
Lemma replay_bk2_early_stop_keeps_handles :
  ~ both_released
      (fst (fst (take_then_stop (counting [press_right; press_right]) 1
                   (replay_bk2 _ (args false)) fresh []))).
Proof.
  intros [Hmovie _]. vm_compute in Hmovie. discriminate Hmovie.
Qed.

(** C9.  When the replay yields no record, [get_variables_from_replay]
    raises: [actions] was never bound when line 79 reads it; and
    [reformat_info], had it been reached with the empty list of frames, raises
    at [info[0]]. No dataset is returned. *)
Theorem get_variables_from_replay_no_record (R : Retro) (a : Args)
    (w w' : World) (fuel : nat) (g : Gen R) :
  collect R fuel (replay_bk2 R a) w = (w', g, Done []) ->
  get_variables_from_replay R fuel a w
  = Some (w', inl (UnboundLocalError "actions")) /\
  (forall keys acts,
     reformat_info [] keys (bk2_path a) acts = inl IndexError).
Proof.
  intros Hrun. split; [|reflexivity].
  destruct (for_loop_any_body R (body R) fuel (replay_bk2 R a) w []
              (locals0 R) w' g [] Hrun) as (pulled & Hp & Hb).
  simpl in Hp. subst pulled.
  unfold get_variables_from_replay. rewrite Hb. reflexivity.
Qed.

Lemma get_variables_from_replay_no_record_witness :
  get_variables_from_replay (counting [press_right]) 2 (args true) fresh
  = Some ({| movie_h := Released; emulator_h := Released;
             log := [{| lvl := DEBUG;
                        text := "Creating emulator for game: SuperMarioBros-Nes" |}] |},
          inl (UnboundLocalError "actions")) /\
  (forall keys acts,
     reformat_info [] keys (bk2_path (args true)) acts = inl IndexError).
Proof.
  apply (get_variables_from_replay_no_record (counting [press_right])
           (args true) fresh _ 2 (Finished _)).
  reflexivity.
Defined.

End ReplayerClaims.

(** ** The session reformatter *)

Section FilenameFacts.

Import Replay.

Lemma ascii_eqb_true (c d : ascii) : Ascii.eqb c d = true -> c = d.
Proof. intros H. now apply Ascii.eqb_eq. Qed.

(** A token that splits in two is its two parts around the separator. *)
Lemma split1_two (sep : ascii) :
  forall s key value,
    split1 sep s = [key; value] ->
    s = (key ++ String sep value)%string.
Proof.
  induction s as [|c rest IH]; intros key value Hs; simpl in Hs.
  - discriminate.
  - destruct (Ascii.eqb c sep) eqn:Hc.
    + inversion Hs; subst. apply ascii_eqb_true in Hc. now subst.
    + destruct (split1 sep rest) as [|tok toks] eqn:Hr.
      * discriminate.
      * inversion Hs; subst. simpl. f_equal. now apply IH.
Qed.

Lemma prefix_head (key value : string) (sep : ascii) :
  String.prefix (key ++ String sep EmptyString)%string
    (key ++ String sep value)%string = true.
Proof.
  induction key as [|c key IH]; simpl.
  - destruct (ascii_dec sep sep); [now destruct value|congruence].
  - destruct (ascii_dec c c); [exact IH|congruence].
Qed.


Lemma split_nonempty (sep : ascii) (s : string) : split sep s <> [].
Proof.
  destruct s as [|c s]; simpl; [discriminate|].
  destruct (Ascii.eqb c sep); [discriminate|].
  destruct (split sep s); discriminate.
Qed.

Lemma split_app (sep : ascii) (a b : string) :
  split sep (a ++ String sep b)%string = split sep a ++ split sep b.
Proof.
  induction a as [|c a IH]; cbn [split String.append].
  - now rewrite Ascii.eqb_refl.
  - destruct (Ascii.eqb c sep); [now rewrite IH|].
    rewrite IH.
    destruct (split sep a) as [|tok toks] eqn:Ha;
      [now apply split_nonempty in Ha|].
    reflexivity.
Qed.

Lemma split_no_sep (sep : ascii) (s : string) :
  contains sep s = false -> split sep s = [s].
Proof.
  induction s as [|c s IH]; simpl; intros Hs; [reflexivity|].
  apply orb_false_iff in Hs. destruct Hs as (Hc & Hs).
  now rewrite Hc, (IH Hs).
Qed.

Lemma basename_of_join (dir fname : string) :
  contains "/" fname = false ->
  basename (dir ++ "/" ++ fname)%string = fname.
Proof.
  intros Hf. unfold basename.
  change (dir ++ "/" ++ fname)%string with (dir ++ String "/" fname)%string.
  rewrite split_app, (split_no_sep "/" fname Hf).
  apply last_last.
Qed.

End FilenameFacts.

Section ReformatterFacts.

Import Replay.

Lemma init_lists_snoc (ks : list name) (k : name) (d : dict slot) :
  init_lists (ks ++ [k]) d = dset (init_lists ks d) k (Seq []).
Proof. unfold init_lists. now rewrite fold_left_app. Qed.

Lemma init_lists_in (ks : list name) (d : dict slot) (k : name) :
  In k ks -> dget (init_lists ks d) k = Some (Seq []).
Proof.
  induction ks as [|k' ks IH] using rev_ind; intros Hin; [contradiction|].
  rewrite init_lists_snoc.
  destruct (name_eqb_spec k' k) as [->|Hne].
  - apply dget_dset_same.
  - rewrite dget_dset_other by exact Hne.
    apply IH. apply in_app_or in Hin. destruct Hin as [H|[H|[]]]; congruence.
Qed.

Lemma init_lists_notin (ks : list name) (d : dict slot) (k : name) :
  ~ In k ks -> dget (init_lists ks d) k = dget d k.
Proof.
  induction ks as [|k' ks IH] using rev_ind; intros Hnin; [reflexivity|].
  rewrite init_lists_snoc.
  rewrite dget_dset_other.
  - apply IH. intros H. apply Hnin, in_or_app. now left.
  - intros ->. apply Hnin, in_or_app. right. now left.
Qed.

Lemma in_info_keys (frame_info : list (string * Z)) (k : string) :
  In (Some k) (info_keys frame_info) <-> In k (map fst frame_info).
Proof.
  unfold info_keys. rewrite !in_map_iff. split.
  - intros ([k' z] & Hk & Hin). inversion Hk; subst. now exists (k, z).
  - intros ([k' z] & Hk & Hin). simpl in Hk; subst. now exists (k, z).
Qed.

(** Lines 111-112 on a frame whose keys all have a list in the dictionary:
    every key gets its value appended once; nothing else changes. *)
Lemma info_loop_appends :
  forall (frame_info : list (string * Z)) (st : Store),
    NoDup (map fst frame_info) ->
    (forall k, In k (map fst frame_info) ->
               exists l, dget (repetition_variables st) (Some k) = Some (Seq l)) ->
    exists st',
      info_loop frame_info st = inr st' /\
      actions_obj st' = actions_obj st /\
      (forall key, ~ In key (info_keys frame_info) ->
                   dget (repetition_variables st') key
                   = dget (repetition_variables st) key) /\
      (forall k l, In k (map fst frame_info) ->
                   dget (repetition_variables st) (Some k) = Some (Seq l) ->
                   exists z, dget (repetition_variables st') (Some k)
                             = Some (Seq (l ++ [VInt z]))).
Proof.
  induction frame_info as [|[k0 z0] rest IH]; intros st Hnd Hseq.
  - exists st. simpl. repeat split; auto. intros k l [].
  - simpl in Hnd. inversion Hnd as [|? ? Hnotin Hnd']; subst.
    destruct (Hseq k0 (or_introl eq_refl)) as (l0 & Hl0).
    simpl. unfold append. rewrite Hl0. simpl.
    match goal with
    | |- context [info_loop rest ?s1] =>
        destruct (IH s1 Hnd') as (st' & Hrun & Hact & Hother & Happ)
    end.
    { intros k Hk. simpl.
      destruct (Hseq k (or_intror Hk)) as (l & Hl).
      exists l. rewrite dget_dset_other; auto.
      intros E. inversion E; subst. contradiction. }
    simpl in Hact, Hother, Happ.
    exists st'. split; [exact Hrun|]. split; [exact Hact|]. split.
    + intros key Hkey. simpl in Hkey.
      rewrite Hother by (intros H; apply Hkey; now right).
      apply dget_dset_other. intros E. apply Hkey. now left.
    + intros k l [Hk|Hk] Hl.
      * simpl in Hk. subst k0. exists z0.
        rewrite Hother by (rewrite in_info_keys; exact Hnotin).
        rewrite dget_dset_same. congruence.
      * apply Happ; auto.
        rewrite dget_dset_other; auto.
        intros E. inversion E; subst. contradiction.
Qed.

Lemma key_at_row (keys : list (list bool)) (f j : nat) (row : list bool) :
  nth_error keys f = Some row ->
  j < length row ->
  key_at keys f j = inr (VBool (nth j row false)).
Proof.
  intros Hrow Hj. unfold key_at. rewrite Hrow.
  destruct (nth_error row j) as [b|] eqn:Hb.
  - now rewrite (nth_error_nth _ _ false Hb).
  - apply nth_error_None in Hb. lia.
Qed.

(** Lines 113-114 on distinct buttons that all have a list in the
    dictionary: button number i gets [keys[frame_idx][i]] appended. *)
Lemma button_loop_appends (keys : list (list bool)) (f : nat)
    (row : list bool) :
  nth_error keys f = Some row ->
  forall (bs : list name) (j : nat) (st : Store),
    NoDup bs ->
    j + length bs <= length row ->
    (forall b, In b bs ->
               exists l, dget (repetition_variables st) b = Some (Seq l)) ->
    exists st',
      button_loop f j (map of_name bs) keys st = inr st' /\
      actions_obj st' = actions_obj st /\
      (forall key, ~ In key bs ->
                   dget (repetition_variables st') key
                   = dget (repetition_variables st) key) /\
      (forall i b l, nth_error bs i = Some b ->
                     dget (repetition_variables st) b = Some (Seq l) ->
                     dget (repetition_variables st') b
                     = Some (Seq (l ++ [VBool (nth (j + i) row false)]))).
Proof.
  intros Hrow.
  induction bs as [|b0 bs IH]; intros j st Hnd Hlen Hseq.
  - exists st. simpl. repeat split; auto.
    intros i b l Hi. now destruct i.
  - inversion Hnd as [|? ? Hnotin Hnd']; subst.
    destruct (Hseq b0 (or_introl eq_refl)) as (l0 & Hl0).
    simpl in Hlen. simpl.
    assert (Hto : to_name (of_name b0) = Some b0) by now destruct b0.
    rewrite Hto. unfold append. rewrite Hl0.
    rewrite (key_at_row keys f j row Hrow) by lia. simpl.
    match goal with
    | |- context [button_loop f (S j) _ keys ?s1] =>
        destruct (IH (S j) s1 Hnd') as (st' & Hrun & Hact & Hother & Happ)
    end.
    { simpl. lia. }
    { intros b Hb. simpl.
      destruct (Hseq b (or_intror Hb)) as (l & Hl).
      exists l. rewrite dget_dset_other; auto.
      intros E; subst. contradiction. }
    simpl in Hact, Hother, Happ.
    exists st'. split; [exact Hrun|]. split; [exact Hact|]. split.
    + intros key Hkey.
      rewrite Hother by (intros H; apply Hkey; now right).
      apply dget_dset_other. intros E. apply Hkey. now left.
    + intros i b l Hi Hl. destruct i as [|i]; simpl in Hi.
      * inversion Hi; subst b.
        rewrite Hother by exact Hnotin.
        rewrite dget_dset_same, Nat.add_0_r. congruence.
      * replace (j + S i) with (S j + i) by lia.
        apply (Happ i b l Hi).
        rewrite dget_dset_other; auto.
        intros E; subst. apply Hnotin. eapply nth_error_In; eauto.
Qed.

(** An [append] leaves every list of the dictionary a list. *)
Lemma append_keeps_lists (st st' : Store) (k : name) (arg : result pyval) :
  append st k arg = inr st' ->
  forall k', (exists l, dget (repetition_variables st) k' = Some (Seq l)) ->
             exists l, dget (repetition_variables st') k' = Some (Seq l).
Proof.
  unfold append. intros Happ k' (l' & Hl').
  destruct (dget (repetition_variables st) k) as [[v| |l]|] eqn:Hk;
    try discriminate; destruct arg as [e|v0]; simpl in Happ;
    try discriminate; inversion Happ; subst; simpl.
  - now exists l'.
  - destruct (name_eqb_spec k k') as [->|Hne].
    + rewrite dget_dset_same. eauto.
    + rewrite dget_dset_other by exact Hne. now exists l'.
Qed.

Lemma info_loop_buttons_own_lists :
  forall (frame_info : list (string * Z)) (st st' : Store),
    buttons_own_lists st ->
    info_loop frame_info st = inr st' ->
    buttons_own_lists st'.
Proof.
  induction frame_info as [|[key z] rest IH]; intros st st' Hown Hrun;
    simpl in Hrun.
  - inversion Hrun; subst. exact Hown.
  - destruct (append st (Some key) (inr (VInt z))) as [e|st1] eqn:Happ;
      simpl in Hrun; [discriminate|].
    apply (IH st1 st'); [|exact Hrun].
    intros v k Hv Hk.
    apply (append_keeps_lists st st1 _ _ Happ).
    apply (Hown v k); [|exact Hk].
    unfold append in Happ.
    destruct (dget (repetition_variables st) (Some key)) as [[v0| |l]|];
      try discriminate; simpl in Happ; inversion Happ; subst; simpl in Hv;
      auto.
    apply in_app_or in Hv. destruct Hv as [Hv|[<-|[]]]; [exact Hv|].
    discriminate Hk.
Qed.

(** The remark at [button_loop]: the loop does not write to the list it
    iterates over. *)
Lemma button_loop_keeps_actions (keys : list (list bool)) :
  forall (acts : list pyval) (f j : nat) (st st' : Store),
    (forall v, In v acts -> In v (actions_obj st)) ->
    buttons_own_lists st ->
    button_loop f j acts keys st = inr st' ->
    actions_obj st' = actions_obj st /\ buttons_own_lists st'.
Proof.
  induction acts as [|button rest IH]; intros f j st st' Hsub Hown Hrun;
    simpl in Hrun.
  - inversion Hrun; subst. auto.
  - destruct (to_name button) as [k|] eqn:Hk; [|discriminate].
    destruct (append st k (key_at keys f j)) as [e|st1] eqn:Happ;
      simpl in Hrun; [discriminate|].
    assert (Hact1 : actions_obj st1 = actions_obj st).
    { destruct (Hown button k (Hsub button (or_introl eq_refl)) Hk)
        as (l & Hl).
      unfold append in Happ. rewrite Hl in Happ.
      destruct (key_at keys f j); simpl in Happ; [discriminate|].
      now inversion Happ. }
    destruct (IH f (S j) st1 st') as (Hact & Hown'); auto.
    + intros v Hv. rewrite Hact1. apply Hsub. now right.
    + intros v k' Hv Hk'. rewrite Hact1 in Hv.
      apply (append_keeps_lists st st1 _ _ Happ). eauto.
    + split; [congruence|exact Hown'].
Qed.

Lemma frame_loop_buttons_own_lists (keys : list (list bool)) :
  forall (frames : list (list (string * Z))) (n : nat) (st st' : Store),
    buttons_own_lists st ->
    frame_loop n frames keys st = inr st' ->
    buttons_own_lists st'.
Proof.
  induction frames as [|fr frames IH]; intros n st st' Hown Hrun;
    simpl in Hrun.
  - inversion Hrun; subst. exact Hown.
  - destruct (info_loop fr st) as [e|st1] eqn:H1; simpl in Hrun;
      [discriminate|].
    destruct (button_loop n 0 (actions_obj st1) keys st1) as [e|st2] eqn:H2;
      simpl in Hrun; [discriminate|].
    apply (IH (S n) st2 st'); [|exact Hrun].
    apply (button_loop_keeps_actions keys (actions_obj st1) n 0 st1 st2);
      auto.
    eapply info_loop_buttons_own_lists; eauto.
Qed.

(** In every run of [reformat_info] the buttons have lists of their own,
    from line 108 on. *)
Lemma reformat_info_buttons_own_lists (info : list (list (string * Z)))
    (keys : list (list bool)) (bk2_fpath : string) (actions : list name)
    (st : Store) :
  reformat_info info keys bk2_fpath actions = inr st ->
  buttons_own_lists st.
Proof.
  unfold reformat_info. destruct info as [|first rest]; [discriminate|].
  apply frame_loop_buttons_own_lists.
  intros v k Hv Hk. simpl in Hv. apply in_map_iff in Hv.
  destruct Hv as (b & <- & Hb).
  assert (k = b) by (destruct b; simpl in Hk; congruence). subst k.
  exists []. simpl. now apply init_lists_in.
Qed.

Lemma firstn_succ_nth_error {A} (l : list A) (n : nat) (x : A) :
  nth_error l n = Some x -> firstn (S n) l = firstn n l ++ [x].
Proof.
  revert l. induction n as [|n IH]; intros [|y l] Hn; simpl in Hn;
    try discriminate.
  - now inversion Hn.
  - simpl. f_equal. now apply IH.
Qed.

End ReformatterFacts.

Section FrameLoop.

Import Replay.

Variable keys : list (list bool).
Variable actions : list name.
Variable fields : list string.

Hypothesis actions_distinct : NoDup actions.
Hypothesis fields_not_buttons : forall k, In k fields -> ~ In (Some k) actions.

(** The loop of lines 110-114 from frame [n] on, entered with one list of
    length [n] per field and, per button, the column of the first [n] rows
    of [keys]: it ends with lists of length [n + length frames] and the
    columns of as many rows. *)
Lemma frame_loop_columns :
  forall (frames : list (list (string * Z))) (n : nat) (st : Store),
    (forall fr, In fr frames ->
                NoDup (map fst fr) /\
                (forall k, In k (map fst fr) <-> In k fields)) ->
    n + length frames <= length keys ->
    (forall i row, i < n + length frames -> nth_error keys i = Some row ->
                   length actions <= length row) ->
    actions_obj st = map of_name actions ->
    (forall k, In k fields ->
               exists l, dget (repetition_variables st) (Some k) = Some (Seq l)
                         /\ length l = n) ->
    (forall j b, nth_error actions j = Some b ->
                 dget (repetition_variables st) b
                 = Some (Seq (map (fun row => VBool (nth j row false))
                                (firstn n keys)))) ->
    exists st',
      frame_loop n frames keys st = inr st' /\
      (forall k, In k fields ->
                 exists l, dget (repetition_variables st') (Some k)
                           = Some (Seq l)
                           /\ length l = n + length frames) /\
      (forall j b, nth_error actions j = Some b ->
                   dget (repetition_variables st') b
                   = Some (Seq (map (fun row => VBool (nth j row false))
                                  (firstn (n + length frames) keys)))).
Proof.
  induction frames as [|fr frames IH];
    intros n st Hframes Hlen Hrows Hact Hfields Hbuttons.
  - exists st. simpl. rewrite Nat.add_0_r. auto.
  - destruct (Hframes fr (or_introl eq_refl)) as (Hnd & Hsame).
    simpl in Hlen.
    destruct (info_loop_appends fr st Hnd) as (st1 & Hrun1 & Hact1 & Hoth1 & Happ1).
    { intros k Hk. apply Hsame in Hk.
      destruct (Hfields k Hk) as (l & Hl & _). now exists l. }
    assert (Hbutton_kept : forall b, In b actions ->
              dget (repetition_variables st1) b
              = dget (repetition_variables st) b).
    { intros b Hb. apply Hoth1. intros Hin.
      destruct b as [k|].
      - apply in_info_keys, Hsame in Hin. exact (fields_not_buttons k Hin Hb).
      - unfold info_keys in Hin. apply in_map_iff in Hin.
        destruct Hin as (kv & E & _). discriminate E. }
    destruct (nth_error keys n) as [row|] eqn:Hrow;
      [|apply nth_error_None in Hrow; lia].
    destruct (button_loop_appends keys n row Hrow actions 0 st1
                actions_distinct)
      as (st2 & Hrun2 & Hact2 & Hoth2 & Happ2).
    { simpl. apply (Hrows n row); [simpl; lia|exact Hrow]. }
    { intros b Hb. rewrite (Hbutton_kept b Hb).
      destruct (In_nth_error _ _ Hb) as (j & Hj).
      rewrite (Hbuttons j b Hj). eauto. }
    destruct (IH (S n) st2) as (st' & Hrun & Hf' & Hb').
    + intros fr' Hfr'. apply Hframes. now right.
    + lia.
    + intros i row' Hi. apply Hrows. simpl. lia.
    + now rewrite Hact2, Hact1.
    + intros k Hk. destruct (Hfields k Hk) as (l & Hl & Hn).
      destruct (Happ1 k l (proj2 (Hsame k) Hk) Hl) as (z & Hz).
      exists (l ++ [VInt z]). split.
      * rewrite Hoth2 by exact (fields_not_buttons k Hk). exact Hz.
      * rewrite length_app, Hn. simpl. lia.
    + intros j b Hj.
      rewrite (firstn_succ_nth_error keys n row Hrow), map_app. simpl.
      apply (Happ2 j b _ Hj).
      rewrite (Hbutton_kept b (nth_error_In _ _ Hj)). now apply Hbuttons.
    + exists st'. simpl. rewrite Hrun1. simpl. rewrite Hact1, Hact, Hrun2.
      simpl. split; [exact Hrun|].
      replace (n + S (length frames)) with (S n + length frames) by lia.
      split; assumption.
Qed.

End FrameLoop.

(** ** Claims about the reformatter *)

Section ReformatterClaims.

Import Replay.

(** C2, as amended.  When [info] is not empty, every frame's mapping has the
    keys of the first frame (each once), the action names are pairwise
    distinct and none of them is an info key, and [keys] has, for every
    frame, a row with at least as many entries as there are actions, then
    [reformat_info] returns a record in which every info key and every
    button holds a sequence of length the number of frames, and the j-th
    action's sequence has [keys[i][j]] at index i. *)
Theorem reformat_info_sequences (info : list (list (string * Z)))
    (keys : list (list bool)) (bk2_fpath : string) (actions : list name)
    (first : list (string * Z)) (rest : list (list (string * Z))) :
  info = first :: rest ->
  (forall fr, In fr info ->
              NoDup (map fst fr) /\
              (forall k, In k (map fst fr) <-> In k (map fst first))) ->
  NoDup actions ->
  (forall k, In k (map fst first) -> ~ In (Some k) actions) ->
  length info <= length keys ->
  (forall i row, i < length info -> nth_error keys i = Some row ->
                 length actions <= length row) ->
  exists st,
    reformat_info info keys bk2_fpath actions = inr st /\
    (forall k, In k (map fst first) ->
       exists l, dget (repetition_variables st) (Some k) = Some (Seq l) /\
                 length l = length info) /\
    (forall j b, nth_error actions j = Some b ->
       exists l, dget (repetition_variables st) b = Some (Seq l) /\
                 length l = length info /\
                 forall i row x,
                   i < length info ->
                   nth_error keys i = Some row ->
                   nth_error row j = Some x ->
                   nth_error l i = Some (VBool x)).
Proof.
  intros Hinfo Hframes Hnd Hdisj Hlen Hrows.
  destruct (frame_loop_columns keys actions (map fst first) Hnd Hdisj info 0
              {| actions_obj := map of_name actions;
                 repetition_variables :=
                   init_lists actions
                     (init_lists (info_keys first) (header bk2_fpath)) |})
    as (st & Hrun & Hfields & Hbuttons); auto.
  - intros k Hk. exists []. split; [|reflexivity]. simpl.
    rewrite init_lists_notin by exact (Hdisj k Hk).
    apply init_lists_in. now apply in_info_keys.
  - intros j b Hj. simpl.
    apply init_lists_in. eapply nth_error_In; eauto.
  - exists st. split.
    + unfold reformat_info. rewrite Hinfo. rewrite Hinfo in Hrun. exact Hrun.
    + split; [exact Hfields|].
      intros j b Hj. eexists. split; [exact (Hbuttons j b Hj)|].
      simpl. split.
      * rewrite length_map, length_firstn. lia.
      * intros i row x Hi Hrow Hx.
        rewrite nth_error_map, nth_error_firstn.
        destruct (Nat.ltb_spec i (length info)); [|lia].
        rewrite Hrow. simpl.
        now rewrite (nth_error_nth _ _ false Hx).
Qed.

End ReformatterClaims.

Section ReformatterExamples.

Import Replay Examples.

Lemma reformat_info_sequences_witness :
  exists st,
    reformat_info two_frames two_rows "sub-01_ses-02_level-W1_run-1.bk2"
      two_buttons = inr st /\
    (forall k, In k ["score"; "lives"] ->
       exists l, dget (repetition_variables st) (Some k) = Some (Seq l) /\
                 length l = 2) /\
    (forall j b, nth_error two_buttons j = Some b ->
       exists l, dget (repetition_variables st) b = Some (Seq l) /\
                 length l = 2 /\
                 forall i row x,
                   i < 2 ->
                   nth_error two_rows i = Some row ->
                   nth_error row j = Some x ->
                   nth_error l i = Some (VBool x)).
Proof.
  apply (reformat_info_sequences two_frames two_rows
           "sub-01_ses-02_level-W1_run-1.bk2" two_buttons
           [("score", 0%Z); ("lives", 3%Z)]
           [[("lives", 3%Z); ("score", 100%Z)]]).
  - reflexivity.
  - intros fr [<-|[<-|[]]]; split;
      try (repeat constructor; simpl; intuition discriminate);
      simpl; intuition.
  - repeat constructor; simpl; intuition discriminate.
  - intros k [<-|[<-|[]]] [H|[H|[]]]; discriminate H.
  - simpl. lia.
  - intros [|[|i]] row Hi Hrow; simpl in Hrow; try (simpl in Hi; lia);
      inversion Hrow; subst; simpl; lia.
Defined.

(** C2, as stated, fails when a later frame lacks a key of the first: the
    sequence of that key is shorter than the number of frames. *)
Lemma reformat_info_dropped_key :
  ~ (forall st l,
       reformat_info score_dropped [[]; []] "run.bk2" [] = inr st ->
       dget (repetition_variables st) (Some "score") = Some (Seq l) ->
       length l = length score_dropped).
Proof.
  intros H. specialize (H _ [VInt 1] eq_refl eq_refl). discriminate H.
Qed.



End ReformatterExamples.

(** ** The media exporters *)

Section ExporterFacts.

Import Video.

Variable H : Host.

Lemma in_without (p x : string) (l : list string) :
  In x (without p l) <-> In x l /\ x <> p.
Proof.
  unfold without. rewrite filter_In. split.
  - intros [Hin Hneg]. split; auto.
    intros ->. rewrite String.eqb_refl in Hneg. discriminate.
  - intros [Hin Hne]. split; auto.
    destruct (String.eqb_spec p x); [congruence|reflexivity].
Qed.

Lemma mem_true (p : string) (l : list string) : In p l -> mem p l = true.
Proof.
  intros Hin. unfold mem. apply existsb_exists.
  exists p. split; [exact Hin|apply String.eqb_refl].
Qed.

Lemma existsb_false {A} (f : A -> bool) (l : list A) :
  existsb f l = false <-> (forall x, In x l -> f x = false).
Proof.
  induction l as [|a l IH]; simpl.
  - split; auto. intros _ x [].
  - rewrite orb_false_iff, IH. split.
    + intros [Ha Hl] x [<-|Hx]; auto.
    + intros Hall. split; [apply Hall; now left|].
      intros x Hx. apply Hall. now right.
Qed.

Lemma append_same_head (d a b : string) :
  (d ++ a)%string = (d ++ b)%string -> a = b.
Proof.
  induction d as [|c d IH]; simpl; intros E; [exact E|].
  inversion E. auto.
Qed.

Lemma in_dir_joinpath (d n : string) : in_dir d (joinpath d n) = true.
Proof. unfold in_dir, joinpath. simpl. apply prefix_head. Qed.

(** How the [try] statement of lines 84-94 ends. *)
Lemma mux_result (d tv ta : string) (cmd : list string) (w : World) :
  snd (mux H d tv ta cmd w)
  = match subprocess_run H cmd with
    | NotFound =>
        inl (RuntimeError "ffmpeg binary is required to mux audio into MP4")
    | Exit code =>
        if Z.eqb code 0 then inr tt else inl (CalledProcessError code)
    end.
Proof.
  unfold mux, try_finally, try_except, cleanup, try_except, run_checked,
    mbind, emit, unlink, rmdir, raise, ret, touch.
  simpl.
  destruct (subprocess_run H cmd) as [|code]; [|destruct (Z.eqb code 0)];
    simpl;
    repeat match goal with
           | |- context [if ?c then _ else _] => destruct c; simpl
           end; reflexivity.
Qed.

(** The files it leaves: those of before, the output of a successful run,
    less the two temporary files. *)
Lemma mux_files (d tv ta : string) (cmd : list string) (w : World) :
  files (fst (mux H d tv ta cmd w))
  = without tv
      (without ta
         (match subprocess_run H cmd with
          | NotFound => files w
          | Exit code =>
              if Z.eqb code 0
              then without (last cmd EmptyString) (files w)
                   ++ [last cmd EmptyString]
              else files w
          end)).
Proof.
  unfold mux, try_finally, try_except, cleanup, try_except, run_checked,
    mbind, emit, unlink, rmdir, raise, ret, touch.
  simpl.
  destruct (subprocess_run H cmd) as [|code]; [|destruct (Z.eqb code 0)];
    simpl;
    repeat match goal with
           | |- context [if ?c then _ else _] => destruct c; simpl
           end; reflexivity.
Qed.

(** The temporary directory goes when it exists and holds nothing but the
    two temporary files. *)
Lemma mux_dirs (d tv ta : string) (cmd : list string) (w : World) :
  In d (dirs w) ->
  (forall f, In f (files w) -> f = tv \/ f = ta \/ in_dir d f = false) ->
  in_dir d (last cmd EmptyString) = false ->
  dirs (fst (mux H d tv ta cmd w)) = without d (dirs w).
Proof.
  intros Hd Hfiles Hout.
  assert (Hclean : forall l,
             (forall f, In f l -> f = tv \/ f = ta \/ in_dir d f = false) ->
             existsb (in_dir d) (without tv (without ta l)) = false).
  { intros l Hl. apply existsb_false. intros f Hf.
    apply in_without in Hf. destruct Hf as (Hf & Htv).
    apply in_without in Hf. destruct Hf as (Hf & Hta).
    destruct (Hl f Hf) as [E|[E|E]]; congruence. }
  unfold mux, try_finally, try_except, cleanup, try_except, run_checked,
    mbind, emit, unlink, rmdir, raise, ret, touch.
  simpl.
  destruct (subprocess_run H cmd) as [|code]; [|destruct (Z.eqb code 0)];
    simpl; rewrite (mem_true d (dirs w) Hd); simpl;
    rewrite Hclean; try reflexivity; try exact Hfiles.
  intros f Hf. apply in_app_or in Hf. destruct Hf as [Hf|[<-|[]]].
  - apply in_without in Hf. apply Hfiles, Hf.
  - right. right. exact Hout.
Qed.

End ExporterFacts.

Section ExporterClaims.

Import Video Examples.

Variable H : Host.
Variable Frame : Type.

(** With audio and a sample rate, and a video writer that does not raise,
    [make_mp4] reaches the [try] statement in a world that has the temporary
    directory and, besides the files of before, at most the two temporary
    files. *)
Lemma make_mp4_reaches_mux (selected_frames : list Frame)
    (movie_fname : string) (audio : Audio) (sample_rate fps : Z) (w : World)
    (b : bool) :
  ffmpeg_writer H (temp_video_of H) fps (length selected_frames) = inr b ->
  exists w3,
    make_mp4 H Frame selected_frames movie_fname (Some audio)
      (Some sample_rate) fps w
    = mux H (temp_dir_of H) (temp_video_of H) (temp_audio_of H)
        (mux_cmd (temp_video_of H) (temp_audio_of H) (Path movie_fname)) w3 /\
    dirs w3 = dirs w ++ [temp_dir_of H] /\
    (forall f, In f (files w3) ->
               f = temp_video_of H \/ f = temp_audio_of H \/ In f (files w)).
Proof.
  intros Hw.
  unfold make_mp4, tempfile_mkdtemp, write_video, write_wav, logging, mbind,
    mkdir, emit, ret, raise, touch.
  simpl. fold (temp_dir_of H). fold (temp_video_of H). rewrite Hw.
  fold (temp_audio_of H).
  destruct b; destruct (dtype_eqb (audio_dtype audio) int16); simpl;
    (eexists; split; [reflexivity|]; split; [reflexivity|]); simpl;
    intros f Hf;
    repeat (apply in_app_or in Hf; destruct Hf as [Hf|[<-|[]]]; auto;
            try (apply in_without in Hf; destruct Hf as [Hf _]));
    auto.
Qed.

(** C4, as amended.  When audio and a sample rate are supplied and the video
    writer did not raise, [make_mp4] raises the missing-tool error (a
    [RuntimeError]) exactly when the [ffmpeg] binary cannot be located, and
    the mux error ([CalledProcessError]) exactly when the process exits with
    a non-zero status; in every case the two temporary files are removed. *)
Theorem make_mp4_mux_errors (selected_frames : list Frame)
    (movie_fname : string) (audio : Audio) (sample_rate fps : Z) (w : World)
    (b : bool) :
  ffmpeg_writer H (temp_video_of H) fps (length selected_frames) = inr b ->
  let cmd := mux_cmd (temp_video_of H) (temp_audio_of H) (Path movie_fname) in
  let after := make_mp4 H Frame selected_frames movie_fname (Some audio)
                 (Some sample_rate) fps w in
  (snd after
   = inl (RuntimeError "ffmpeg binary is required to mux audio into MP4")
   <-> subprocess_run H cmd = NotFound) /\
  (forall code,
     snd after = inl (CalledProcessError code)
     <-> subprocess_run H cmd = Exit code /\ code <> 0%Z) /\
  ~ In (temp_video_of H) (files (fst after)) /\
  ~ In (temp_audio_of H) (files (fst after)).
Proof.
  intros Hw cmd after.
  destruct (make_mp4_reaches_mux selected_frames movie_fname audio
              sample_rate fps w b Hw) as (w3 & Hrun & _ & _).
  subst after. rewrite Hrun. rewrite mux_result, mux_files. fold cmd.
  split; [|split; [|split]].
  - destruct (subprocess_run H cmd) as [|code].
    + split; reflexivity.
    + destruct (Z.eqb code 0); split; discriminate.
  - intros code. destruct (subprocess_run H cmd) as [|c].
    + split; [discriminate|intros [E _]; discriminate E].
    + destruct (Z.eqb_spec c 0) as [->|Hc].
      * split; [discriminate|]. intros [E Hne]. inversion E; subst.
        now contradiction Hne.
      * split.
        -- intros E. inversion E; subst. now split.
        -- intros [E _]. inversion E; subst. reflexivity.
  - intros Hin. apply in_without in Hin. now destruct Hin.
  - intros Hin. apply in_without in Hin. destruct Hin as [Hin _].
    apply in_without in Hin. now destruct Hin.
Qed.

(** C5, as amended.  With frames, an audio array (of any dtype) and a sample
    rate, a video writer that did not raise and a new temporary directory:
    the two temporary files and the temporary directory are removed after
    the call, whether the muxing step succeeded, failed, or found no binary;
    and when it succeeded, the call returns and the final file exists at the
    requested path, [Path(movie_fname)]. *)
Theorem make_mp4_with_audio (selected_frames : list Frame)
    (movie_fname : string) (audio : Audio) (sample_rate fps : Z) (w : World)
    (b : bool) :
  ffmpeg_writer H (temp_video_of H) fps (length selected_frames) = inr b ->
  temp_dir_is_new H (Path movie_fname) w ->
  let cmd := mux_cmd (temp_video_of H) (temp_audio_of H) (Path movie_fname) in
  let after := make_mp4 H Frame selected_frames movie_fname (Some audio)
                 (Some sample_rate) fps w in
  ~ In (temp_video_of H) (files (fst after)) /\
  ~ In (temp_audio_of H) (files (fst after)) /\
  ~ In (temp_dir_of H) (dirs (fst after)) /\
  (subprocess_run H cmd = Exit 0 ->
   snd after = inr tt /\ In (Path movie_fname) (files (fst after))).
Proof.
  intros Hw [Hnone Hout] cmd after.
  destruct (make_mp4_reaches_mux selected_frames movie_fname audio
              sample_rate fps w b Hw) as (w3 & Hrun & Hdirs & Hfiles).
  subst after. rewrite Hrun. fold cmd.
  split; [|split; [|split]].
  - rewrite mux_files. intros Hin. apply in_without in Hin. now destruct Hin.
  - rewrite mux_files. intros Hin. apply in_without in Hin.
    destruct Hin as [Hin _]. apply in_without in Hin. now destruct Hin.
  - rewrite mux_dirs.
    + intros Hin. apply in_without in Hin. now destruct Hin.
    + rewrite Hdirs. apply in_or_app. right. now left.
    + intros f Hf. destruct (Hfiles f Hf) as [E|[E|Hin]]; auto.
      right. right. exact (proj1 (existsb_false _ _) Hnone f Hin).
    + exact Hout.
  - intros Hexit. rewrite mux_result, mux_files, Hexit. simpl.
    split; [reflexivity|].
    assert (Htv : Path movie_fname <> temp_video_of H).
    { intros E. rewrite E in Hout. unfold temp_video_of in Hout.
      rewrite in_dir_joinpath in Hout. discriminate. }
    assert (Hta : Path movie_fname <> temp_audio_of H).
    { intros E. rewrite E in Hout. unfold temp_audio_of in Hout.
      rewrite in_dir_joinpath in Hout. discriminate. }
    apply in_without. split; [|exact Htv].
    apply in_without. split; [|exact Hta].
    apply in_or_app. right. now left.
Qed.

(** C7.  With no frame, [make_gif] and [make_webp] write no file and save
    nothing: they log one warning and return. *)
Theorem make_gif_make_webp_no_frames (movie_fname : string) (w : World) :
  make_gif H Frame [] movie_fname w
  = ({| files := files w; dirs := dirs w;
        trace := trace w ++
                 [Ev_log WARNING ("No frames to save in " ++ movie_fname)%string] |},
     inr tt) /\
  make_webp H Frame [] movie_fname w
  = ({| files := files w; dirs := dirs w;
        trace := trace w ++
                 [Ev_log WARNING ("No frames to save in " ++ movie_fname)%string] |},
     inr tt).
Proof. split; reflexivity. Qed.

(** C10, as amended.  When the audio array or the sample rate is missing,
    [make_mp4] does exactly what it does with neither: the audio is ignored.
    Its only external calls are [mkdtemp] and the video writer, so that no
    waveform file is written, no process is run and nothing is logged.  Where
    the video writer left its file in a new temporary directory and nothing
    stands in the way of the move onto the final path, the call returns
    without an error, the silent video has moved to the final path and the
    temporary directory is gone. *)
Theorem make_mp4_audio_ignored (selected_frames : list Frame)
    (movie_fname : string) (audio : option Audio) (sample_rate : option Z)
    (fps : Z) (w : World) :
  audio = None \/ sample_rate = None ->
  let after := make_mp4 H Frame selected_frames movie_fname audio sample_rate
                 fps w in
  after = make_mp4 H Frame selected_frames movie_fname None None fps w /\
  trace (fst after)
  = trace w ++ [Ev_mkdtemp (temp_dir_of H);
                Ev_encode (temp_video_of H) fps (length selected_frames)] /\
  (ffmpeg_writer H (temp_video_of H) fps (length selected_frames) = inr true ->
   replace_error H (temp_video_of H) (Path movie_fname) = None ->
   temp_dir_is_new H (Path movie_fname) w ->
   snd after = inr tt /\
   In (Path movie_fname) (files (fst after)) /\
   ~ In (temp_video_of H) (files (fst after)) /\
   ~ In (temp_audio_of H) (files (fst after)) /\
   ~ In (temp_dir_of H) (dirs (fst after))).
Proof.
  intros Hmissing after.
  assert (Hsilent :
            after
            = make_mp4 H Frame selected_frames movie_fname None None fps w).
  { subst after. destruct Hmissing as [->| ->]; [now destruct sample_rate|].
    now destruct audio. }
  split; [exact Hsilent|]. rewrite Hsilent. clear Hsilent after Hmissing.
  split.
  { unfold make_mp4, tempfile_mkdtemp, write_video, replace, rmdir, mbind,
      mkdir, emit, ret, raise, touch.
    simpl. fold (temp_dir_of H). fold (temp_video_of H).
    destruct (ffmpeg_writer H (temp_video_of H) fps (length selected_frames))
      as [e|[|]]; simpl;
      repeat match goal with
             | |- context [if ?c then _ else _] => destruct c; simpl
             | |- context [match replace_error H ?a ?b with _ => _ end] =>
                 destruct (replace_error H a b); simpl
             end;
      now rewrite <- app_assoc. }
  set (final_path := Path movie_fname).
  intros Hw Hmove [Hnone Hout].
  assert (Htv : final_path <> temp_video_of H).
  { intros E. rewrite E in Hout. unfold temp_video_of in Hout.
    rewrite in_dir_joinpath in Hout. discriminate. }
  assert (Hrun :
        make_mp4 H Frame selected_frames movie_fname None None fps w
        = ({| files := without final_path
                         (without (temp_video_of H)
                            (without (temp_video_of H) (files w)
                             ++ [temp_video_of H]))
                       ++ [final_path];
              dirs := without (temp_dir_of H) (dirs w ++ [temp_dir_of H]);
              trace := trace w ++
                       [Ev_mkdtemp (temp_dir_of H);
                        Ev_encode (temp_video_of H) fps
                          (length selected_frames)] |}, inr tt)).
  { unfold make_mp4, tempfile_mkdtemp, write_video, replace, rmdir, mbind,
      mkdir, emit, ret, raise, touch.
    simpl. fold (temp_dir_of H). fold (temp_video_of H). fold final_path.
    rewrite Hw. simpl.
    rewrite mem_true by (apply in_or_app; right; now left). rewrite Hmove.
    simpl.
    rewrite mem_true by (apply in_or_app; right; now left). simpl.
    match goal with
    | |- context [existsb (in_dir ?d) ?l] =>
        assert (Hempty : existsb (in_dir d) l = false)
    end.
    { apply existsb_false. intros f Hf.
      apply in_app_or in Hf. destruct Hf as [Hf|[<-|[]]]; [|exact Hout].
      apply in_without in Hf. destruct Hf as [Hf _].
      apply in_without in Hf. destruct Hf as [Hf Hne].
      apply in_app_or in Hf. destruct Hf as [Hf|[<-|[]]]; [|congruence].
      apply in_without in Hf. destruct Hf as [Hf _].
      exact (proj1 (existsb_false _ _) Hnone f Hf). }
    rewrite Hempty. simpl. rewrite <- app_assoc. reflexivity. }
  rewrite Hrun. simpl.
  split; [reflexivity|].
  split; [apply in_or_app; right; now left|].
  split.
  { intros Hin. apply in_app_or in Hin. destruct Hin as [Hin|[E|[]]];
      [|congruence].
    apply in_without in Hin. destruct Hin as [Hin _].
    apply in_without in Hin. now destruct Hin. }
  split.
  { intros Hin. apply in_app_or in Hin. destruct Hin as [Hin|[E|[]]].
    - apply in_without in Hin. destruct Hin as [Hin _].
      apply in_without in Hin. destruct Hin as [Hin _].
      apply in_app_or in Hin. destruct Hin as [Hin|[E|[]]].
      + apply in_without in Hin. destruct Hin as [Hin _].
        pose proof (proj1 (existsb_false _ _) Hnone _ Hin) as Hf.
        unfold temp_audio_of in Hf. rewrite in_dir_joinpath in Hf.
        discriminate.
      + unfold temp_video_of, temp_audio_of, joinpath in E.
        apply append_same_head in E. discriminate E.
    - rewrite E in Hout. unfold temp_audio_of in Hout.
      rewrite in_dir_joinpath in Hout. discriminate. }
  intros Hin. apply in_without in Hin. now destruct Hin.
Qed.

End ExporterClaims.

Section ExporterExamples.

Import Video Examples.

Lemma make_mp4_mux_errors_witness :
  let cmd := mux_cmd (temp_video_of (host None)) (temp_audio_of (host None))
               "out.mp4" in
  let after := make_mp4 (host None) nat [0; 1] "out.mp4" (Some beep)
                 (Some 44100%Z) 60%Z nothing_yet in
  (snd after
   = inl (RuntimeError "ffmpeg binary is required to mux audio into MP4")
   <-> subprocess_run (host None) cmd = NotFound) /\
  (forall code,
     snd after = inl (CalledProcessError code)
     <-> subprocess_run (host None) cmd = Exit code /\ code <> 0%Z) /\
  ~ In (temp_video_of (host None)) (files (fst after)) /\
  ~ In (temp_audio_of (host None)) (files (fst after)).
Proof.
  apply (make_mp4_mux_errors (host None) nat [0; 1] "out.mp4" beep 44100%Z
           60%Z nothing_yet true).
  reflexivity.
Defined.

(** C4, as stated, fails without audio: the binary cannot be located and
    yet no error is raised, the process being never run. *)
Lemma make_mp4_silent_without_ffmpeg :
  ~ (snd (make_mp4 (host None) nat [0; 1] "out.mp4" None None 60%Z nothing_yet)
     = inl (RuntimeError "ffmpeg binary is required to mux audio into MP4")
     <-> (forall cmd, subprocess_run (host None) cmd = NotFound)).
Proof.
  intros [_ Hraise]. specialize (Hraise (fun _ => eq_refl)).
  vm_compute in Hraise. discriminate Hraise.
Qed.

Lemma make_mp4_with_audio_witness :
  let cmd := mux_cmd (temp_video_of (host (Some 0%Z)))
               (temp_audio_of (host (Some 0%Z))) "out.mp4" in
  let after := make_mp4 (host (Some 0%Z)) nat [0; 1] "out.mp4" (Some beep)
                 (Some 44100%Z) 60%Z nothing_yet in
  ~ In (temp_video_of (host (Some 0%Z))) (files (fst after)) /\
  ~ In (temp_audio_of (host (Some 0%Z))) (files (fst after)) /\
  ~ In (temp_dir_of (host (Some 0%Z))) (dirs (fst after)) /\
  (subprocess_run (host (Some 0%Z)) cmd = Exit 0 ->
   snd after = inr tt /\ In "out.mp4" (files (fst after))).
Proof.
  apply (make_mp4_with_audio (host (Some 0%Z)) nat [0; 1] "out.mp4" beep
           44100%Z 60%Z nothing_yet true).
  - reflexivity.
  - split; reflexivity.
Defined.

(** C5, as stated, fails when the muxing step fails: with no [ffmpeg]
    binary, nothing is at the requested path after the call. *)
Lemma make_mp4_no_final_file_without_ffmpeg :
  ~ In "out.mp4"
      (files (fst (make_mp4 (host None) nat [0; 1] "out.mp4" (Some beep)
                     (Some 44100%Z) 60%Z nothing_yet))).
Proof. vm_compute. intros []. Qed.

Lemma make_mp4_audio_ignored_witness :
  let after := make_mp4 (host None) nat [0; 1] "out.mp4" (Some beep) None
                 60%Z nothing_yet in
  after = make_mp4 (host None) nat [0; 1] "out.mp4" None None 60%Z nothing_yet /\
  trace (fst after)
  = [Ev_mkdtemp (temp_dir_of (host None));
     Ev_encode (temp_video_of (host None)) 60%Z 2] /\
  snd after = inr tt /\
  In "out.mp4" (files (fst after)) /\
  ~ In (temp_video_of (host None)) (files (fst after)) /\
  ~ In (temp_audio_of (host None)) (files (fst after)) /\
  ~ In (temp_dir_of (host None)) (dirs (fst after)).
Proof.
  destruct (make_mp4_audio_ignored (host None) nat [0; 1] "out.mp4"
              (Some beep) None 60%Z nothing_yet (or_intror eq_refl))
    as (Hsame & Htrace & Hmoved).
  split; [exact Hsame|]. split; [exact Htrace|].
  apply Hmoved.
  - reflexivity.
  - reflexivity.
  - split; reflexivity.
Defined.

(** C10, as stated, fails when the video writer left no file, as with no
    frame to write: the audio is ignored, but the move of line 58 raises
    [FileNotFoundError], nothing is at the final path and the temporary
    directory stays. *)
Lemma make_mp4_audio_ignored_without_video :
  let after := make_mp4 (host_with_writer (inr false)) nat [] "out.mp4"
                 (Some beep) None 60%Z nothing_yet in
  snd after = inl FileNotFoundError /\
  ~ In "out.mp4" (files (fst after)) /\
  In (temp_dir_of (host_with_writer (inr false))) (dirs (fst after)).
Proof.
  vm_compute. split; [reflexivity|]. split; [intros []|]. right. now left.
Qed.

End ExporterExamples.

(** ** The package *)

Section PackageClaims.

Import Package.

(** C8.  Neither module defines [write_wav]; the replay module imports and
    binds no such name; so the import of the video module stops at line 12
    with an [ImportError], and with it any use of [make_gif], [make_mp4] or
    [make_webp] through that module. *)
Theorem video_import_fails :
  defines replay_py "write_wav" = false /\
  defines video_py "write_wav" = false /\
  In (FromSibling "replay" "write_wav") video_py /\
  (exists ns, import_replay = inr ns /\ bound ns "write_wav" = false) /\
  import_video = inl (ImportError "write_wav") /\
  (forall f, from_video f = inl (ImportError "write_wav")).
Proof.
  split; [reflexivity|]. split; [reflexivity|].
  split; [simpl; tauto|].
  split; [eexists; split; reflexivity|].
  split; reflexivity.
Qed.

End PackageClaims.

(** * Further properties *)

(** ** The replay is the emulator run on the logged steps *)

Section ReplayRefinement.

Import Replay.

Variable R : Retro.

Lemma emulator_step_num_buttons (emulator : Emulator (Core R))
    (keys : list bool) :
  num_buttons (fst (emulator_step R emulator keys)) = num_buttons emulator.
Proof.
  unfold emulator_step. now destruct (core_step R (em emulator) keys).
Qed.

Lemma for_loop_suspended_records {S : Type} (body : S -> StepRecord R -> S) :
  forall (l : list (list (list bool))) movie emulator actions w s fuel,
    pending movie = l ->
    length l < fuel ->
    for_loop R fuel body (Suspended R movie emulator actions) w s
    = (set_movie_h Released (set_emulator_h Released w), Finished R,
       Done (fold_left body
               (records_of R emulator actions
                  (map (step_keys (players movie) (num_buttons emulator)) l))
               s)).
Proof.
  induction l as [|now later IH]; intros movie emulator actions w s fuel Hp Hf;
    destruct fuel as [|fuel]; try (simpl in Hf; lia).
  - simpl. unfold loop, movie_step. rewrite Hp. reflexivity.
  - simpl. unfold loop, movie_step. rewrite Hp.
    change (read_keys
              {| movie_game := movie_game movie;
                 movie_state := movie_state movie; players := players movie;
                 pending := later; current := now |} (num_buttons emulator))
      with (step_keys (players movie) (num_buttons emulator) now).
    pose proof (emulator_step_num_buttons emulator
                  (step_keys (players movie) (num_buttons emulator) now))
      as Hnb.
    destruct (emulator_step R emulator
                (step_keys (players movie) (num_buttons emulator) now))
      as [emulator' out].
    simpl in Hnb.
    match goal with
    | |- context [for_loop R fuel body (Suspended R ?m ?e ?a) w ?s'] =>
        rewrite (IH m e a w s' fuel eq_refl) by (simpl in Hf; lia)
    end.
    simpl. now rewrite Hnb.
Qed.

Lemma for_loop_replay_records {S : Type} (body : S -> StepRecord R -> S)
    (a : Args) (w : World) (s : S) (fuel : nat) movie emulator :
  retro_Movie R (bk2_path a) = inr movie ->
  retro_make R (resolve_game a movie) (state a) (scenario a) (inttype a) false
  = inr emulator ->
  length (pending movie) < fuel ->
  for_loop R fuel body (replay_bk2 R a) w s
  = (set_movie_h Released
       (set_emulator_h Released
          (set_emulator_h Held
             (logging DEBUG
                ("Creating emulator for game: " ++ resolve_game a movie)%string
                (set_movie_h Held w)))),
     Finished R,
     Done (fold_left body
             (records_of R (prepared R emulator movie) (buttons emulator)
                (map (step_keys (players movie) (num_buttons emulator))
                   (replayed_steps a movie)))
             s)).
Proof.
  intros Hm Hmk Hf.
  destruct fuel as [|fuel]; [lia|].
  rewrite (for_loop_created R body a w s fuel movie emulator Hm Hmk).
  unfold replayed_steps, prepared.
  destruct (skip_first_step a).
  - rewrite (for_loop_suspended_records body (tl (pending movie))).
    + now rewrite movie_step_players.
    + apply movie_step_pending.
    + destruct (pending movie); simpl in *; lia.
  - now rewrite (for_loop_suspended_records body (pending movie)).
Qed.

Lemma records_of_keys (emulator : Emulator (Core R)) (actions : list name)
    (key_vectors : list (list bool)) :
  map rec_keys (records_of R emulator actions key_vectors) = key_vectors.
Proof.
  revert emulator. induction key_vectors as [|keys later IH]; intros emulator;
    simpl; [reflexivity|].
  destruct (emulator_step R emulator keys) as [emulator' out]. simpl.
  now rewrite IH.
Qed.

Lemma records_of_length (emulator : Emulator (Core R)) (actions : list name)
    (key_vectors : list (list bool)) :
  length (records_of R emulator actions key_vectors) = length key_vectors.
Proof.
  rewrite <- (records_of_keys emulator actions key_vectors) at 2.
  now rewrite length_map.
Qed.

Lemma records_of_actions (emulator : Emulator (Core R)) (actions : list name)
    (key_vectors : list (list bool)) :
  Forall (fun r => rec_actions r = actions)
    (records_of R emulator actions key_vectors).
Proof.
  revert emulator. induction key_vectors as [|keys later IH]; intros emulator;
    simpl; [constructor|].
  destruct (emulator_step R emulator keys) as [emulator' out].
  constructor; [reflexivity|apply IH].
Qed.

(** X1.  When the movie file opens and the emulator is made, the records a
    consumer pulls out of the replay are those of the emulator, given the
    movie's start state and reset, stepped once per logged step on the key
    vector of that step, the first step left out when [skip_first_step] is
    set; the generator is then over, with both handles released. *)
Theorem replay_bk2_records (a : Args) (w : World) (fuel : nat) movie emulator :
  retro_Movie R (bk2_path a) = inr movie ->
  retro_make R (resolve_game a movie) (state a) (scenario a) (inttype a) false
  = inr emulator ->
  length (pending movie) < fuel ->
  exists w',
    collect R fuel (replay_bk2 R a) w
    = (w', Finished R,
       Done (records_of R (prepared R emulator movie) (buttons emulator)
               (map (step_keys (players movie) (num_buttons emulator))
                  (replayed_steps a movie)))) /\
    both_released w'.
Proof.
  intros Hm Hmk Hf. unfold collect.
  rewrite (for_loop_replay_records _ a w [] fuel movie emulator Hm Hmk Hf).
  rewrite fold_left_snoc. simpl.
  eexists. split; [reflexivity|split; reflexivity].
Qed.

(** X2.  The key vectors of the records are the logged steps read player by
    player, button by button; with [skip_first_step] set they are those of
    the replay without it, less the first. *)
Theorem replay_bk2_key_vectors (a : Args) (w : World) (fuel : nat)
    movie emulator :
  retro_Movie R (bk2_path a) = inr movie ->
  retro_make R (resolve_game a movie) (state a) (scenario a) (inttype a) false
  = inr emulator ->
  length (pending movie) < fuel ->
  exists w_off recs_off w_on recs_on,
    collect R fuel (replay_bk2 R (with_skip a false)) w
    = (w_off, Finished R, Done recs_off) /\
    collect R fuel (replay_bk2 R (with_skip a true)) w
    = (w_on, Finished R, Done recs_on) /\
    map rec_keys recs_off
    = map (step_keys (players movie) (num_buttons emulator)) (pending movie) /\
    map rec_keys recs_on = tl (map rec_keys recs_off).
Proof.
  intros Hm Hmk Hf. unfold collect.
  rewrite (for_loop_replay_records _ (with_skip a false) w [] fuel movie
             emulator Hm Hmk Hf).
  rewrite (for_loop_replay_records _ (with_skip a true) w [] fuel movie
             emulator Hm Hmk Hf).
  rewrite !fold_left_snoc. simpl.
  do 4 eexists. split; [reflexivity|]. split; [reflexivity|].
  rewrite !records_of_keys. unfold replayed_steps. simpl.
  split; [reflexivity|].
  now destruct (pending movie).
Qed.

(** X3.  When the movie file opens and making the emulator fails, the
    error reaches the caller of [get_variables_from_replay] at the first
    pull; the movie has been opened and is not released, and no emulator is
    held. *)
Theorem get_variables_from_replay_make_fails (a : Args) (w : World)
    (fuel : nat) movie (e : exn) :
  retro_Movie R (bk2_path a) = inr movie ->
  retro_make R (resolve_game a movie) (state a) (scenario a) (inttype a) false
  = inl e ->
  1 <= fuel ->
  exists w',
    get_variables_from_replay R fuel a w = Some (w', inl e) /\
    movie_h w' = Held /\
    emulator_h w' = emulator_h w.
Proof.
  intros Hm Hmk Hf. destruct fuel as [|fuel]; [lia|].
  unfold get_variables_from_replay, replay_bk2. simpl.
  unfold start. rewrite Hm, Hmk.
  eexists. split; [reflexivity|]. split; reflexivity.
Qed.

End ReplayRefinement.

(** ** From the replay to the dataset *)

Section OrchestrationFacts.

Import Replay.

Variable R : Retro.

Lemma fold_body_lists (recs : list (StepRecord R)) :
  forall l : Locals R,
    replay_frames R (fold_left (body R) recs l)
    = replay_frames R l ++ map rec_frame recs /\
    replay_keys R (fold_left (body R) recs l)
    = replay_keys R l ++ map rec_keys recs /\
    replay_info R (fold_left (body R) recs l)
    = replay_info R l ++ map (fun r => info (rec_annotations r)) recs /\
    replay_states R (fold_left (body R) recs l)
    = replay_states R l ++ map rec_state recs.
Proof.
  induction recs as [|r recs IH]; intros l; simpl.
  - now rewrite !app_nil_r.
  - destruct (IH (body R l r)) as (Hf & Hk & Hi & Hs).
    rewrite Hf, Hk, Hi, Hs. simpl. now rewrite <- !app_assoc.
Qed.

Lemma fold_body_actions (recs : list (StepRecord R)) (acts : list name) :
  Forall (fun r => rec_actions r = acts) recs ->
  recs <> [] ->
  forall l : Locals R, actions R (fold_left (body R) recs l) = Some acts.
Proof.
  induction recs as [|r recs IH]; intros Hall Hne l; [congruence|].
  inversion Hall as [|? ? Hr Hrest]; subst. simpl.
  destruct recs as [|r' recs'].
  - reflexivity.
  - apply IH; [exact Hrest|discriminate].
Qed.

Lemma last_any_default {A} (l : list A) (d d' : A) :
  l <> [] -> last l d = last l d'.
Proof.
  induction l as [|x l IH]; intros Hne; [congruence|].
  destruct l as [|y l]; [reflexivity|].
  change (last (y :: l) d = last (y :: l) d'). apply IH. discriminate.
Qed.

Lemma fold_body_done (recs : list (StepRecord R)) :
  forall l : Locals R,
    get_done (annotations R (fold_left (body R) recs l))
    = last (map (fun r => done (rec_annotations r)) recs)
        (get_done (annotations R l)).
Proof.
  induction recs as [|r recs IH]; intros l; [reflexivity|].
  simpl fold_left. rewrite IH. simpl get_done.
  destruct recs as [|r' recs']; [reflexivity|].
  simpl map.
  match goal with
  | |- last ?l _ = last (_ :: ?l) ?d =>
      transitivity (last l d); [apply last_any_default; discriminate|]
  end.
  reflexivity.
Qed.

(** A call of [get_variables_from_replay], in full. *)
Lemma get_variables_from_replay_run (a : Args) (w : World) (fuel : nat)
    movie emulator :
  retro_Movie R (bk2_path a) = inr movie ->
  retro_make R (resolve_game a movie) (state a) (scenario a) (inttype a) false
  = inr emulator ->
  length (pending movie) < fuel ->
  let recs := records_of R (prepared R emulator movie) (buttons emulator)
                (map (step_keys (players movie) (num_buttons emulator))
                   (replayed_steps a movie)) in
  let infos := map (fun r => info (rec_annotations r)) recs in
  let w_over :=
    set_movie_h Released
      (set_emulator_h Released
         (set_emulator_h Held
            (logging DEBUG
               ("Creating emulator for game: " ++ resolve_game a movie)%string
               (set_movie_h Held w)))) in
  get_variables_from_replay R fuel a w
  = match recs with
    | [] => Some (w_over, inl (UnboundLocalError "actions"))
    | _ :: _ =>
        match reformat_info infos (map rec_keys recs) (bk2_path a)
                (buttons emulator) with
        | inl err => Some (w_over, inl err)
        | inr rv =>
            Some (if negb (last (map (fun r => done (rec_annotations r)) recs)
                             false)
                  then logging WARNING
                         ("Done condition not satisfied for " ++ bk2_path a ++
                          ". Consider changing skip_first_step.")%string
                         w_over
                  else w_over,
                  inr (rv, infos, map rec_frame recs, map rec_state recs))
        end
    end.
Proof.
  intros Hm Hmk Hf recs infos w_over.
  unfold get_variables_from_replay.
  rewrite (for_loop_replay_records R (body R) a w (locals0 R) fuel movie
             emulator Hm Hmk Hf).
  fold recs. fold w_over. cbv iota beta.
  pose proof (records_of_actions R (prepared R emulator movie)
                (buttons emulator)
                (map (step_keys (players movie) (num_buttons emulator))
                   (replayed_steps a movie))) as Hall.
  fold recs in Hall. subst infos. clearbody recs.
  destruct recs as [|r recs']; [reflexivity|].
  rewrite (fold_body_actions (r :: recs') (buttons emulator) Hall)
    by discriminate.
  destruct (fold_body_lists (r :: recs') (locals0 R)) as (Hfr & Hk & Hi & Hs).
  rewrite Hfr, Hk, Hi, Hs, fold_body_done.
  reflexivity.
Qed.


(** X5.  Beside the debug line of the replay, [get_variables_from_replay]
    logs one thing at most: the warning about the done condition, exactly
    when it returns a dataset and the emulator did not report termination at
    the last replayed step. *)
Theorem get_variables_from_replay_warning (a : Args) (w : World)
    (fuel : nat) movie emulator :
  retro_Movie R (bk2_path a) = inr movie ->
  retro_make R (resolve_game a movie) (state a) (scenario a) (inttype a) false
  = inr emulator ->
  length (pending movie) < fuel ->
  let recs := records_of R (prepared R emulator movie) (buttons emulator)
                (map (step_keys (players movie) (num_buttons emulator))
                   (replayed_steps a movie)) in
  exists w' res,
    get_variables_from_replay R fuel a w = Some (w', res) /\
    log w'
    = log w
      ++ [{| lvl := DEBUG;
             text := ("Creating emulator for game: "
                      ++ resolve_game a movie)%string |}]
      ++ (if match res with inr _ => true | inl _ => false end
             && negb (last (map (fun r => done (rec_annotations r)) recs) false)
          then [{| lvl := WARNING;
                   text := ("Done condition not satisfied for " ++ bk2_path a
                            ++ ". Consider changing skip_first_step.")%string |}]
          else []).
Proof.
  intros Hm Hmk Hf recs.
  rewrite (get_variables_from_replay_run a w fuel movie emulator Hm Hmk Hf).
  fold recs.
  destruct recs as [|r recs'].
  - do 2 eexists. split; reflexivity.
  - destruct (reformat_info _ _ _ _) as [err|rv0].
    + do 2 eexists. split; reflexivity.
    + do 2 eexists. split; [reflexivity|].
      destruct (negb _); simpl; [|reflexivity].
      now rewrite <- app_assoc.
Qed.

End OrchestrationFacts.

(** ** The dataset of a replay *)

Section DatasetFacts.

Import Replay.

(** What [reformat_info] returns on frames of one schema, column by
    column. *)
Lemma reformat_info_columns (info : list (list (string * Z)))
    (keys : list (list bool)) (bk2_fpath : string) (actions : list name)
    (first : list (string * Z)) (rest : list (list (string * Z))) :
  info = first :: rest ->
  (forall fr, In fr info ->
              NoDup (map fst fr) /\
              (forall k, In k (map fst fr) <-> In k (map fst first))) ->
  NoDup actions ->
  (forall k, In k (map fst first) -> ~ In (Some k) actions) ->
  length info <= length keys ->
  (forall i row, i < length info -> nth_error keys i = Some row ->
                 length actions <= length row) ->
  exists st,
    reformat_info info keys bk2_fpath actions = inr st /\
    (forall k, In k (map fst first) ->
       exists l, dget (repetition_variables st) (Some k) = Some (Seq l) /\
                 length l = length info) /\
    (forall j b, nth_error actions j = Some b ->
       dget (repetition_variables st) b
       = Some (Seq (map (fun row => VBool (nth j row false))
                      (firstn (length info) keys)))).
Proof.
  intros Hinfo Hframes Hnd Hdisj Hlen Hrows.
  destruct (frame_loop_columns keys actions (map fst first) Hnd Hdisj info 0
              {| actions_obj := map of_name actions;
                 repetition_variables :=
                   init_lists actions
                     (init_lists (info_keys first) (header bk2_fpath)) |})
    as (st & Hrun & Hfields & Hbuttons); auto.
  - intros k Hk. exists []. split; [|reflexivity]. simpl.
    rewrite init_lists_notin by exact (Hdisj k Hk).
    apply init_lists_in. now apply in_info_keys.
  - intros j b Hj. simpl.
    apply init_lists_in. eapply nth_error_In; eauto.
  - exists st. split.
    + unfold reformat_info. rewrite Hinfo. rewrite Hinfo in Hrun. exact Hrun.
    + split; [exact Hfields|exact Hbuttons].
Qed.

Lemma step_keys_length (n_players nb : nat) (step : list (list bool)) :
  length (step_keys n_players nb step) = n_players * nb.
Proof.
  unfold step_keys. rewrite (flat_map_const_length _ nb).
  - now rewrite length_seq.
  - intros p. now rewrite length_map, length_seq.
Qed.

(** The first [nb] keys of a step's vector are the first player's. *)
Lemma step_keys_first_player (n_players nb j : nat)
    (step : list (list bool)) :
  1 <= n_players ->
  j < nb ->
  nth j (step_keys n_players nb step) false = nth j (nth 0 step []) false.
Proof.
  intros Hp Hj. destruct n_players as [|p]; [lia|].
  unfold step_keys. simpl flat_map.
  rewrite app_nth1 by (now rewrite length_map, length_seq).
  rewrite (nth_indep _ false (nth 0 (nth 0 step []) false))
    by (now rewrite length_map, length_seq).
  rewrite (map_nth (fun i => nth i (nth 0 step []) false) (seq 0 nb) 0 j).
  now rewrite seq_nth.
Qed.

Variable R : Retro.

Lemma records_of_info (P : list (string * Z) -> Prop)
    (actions : list name) (key_vectors : list (list bool)) :
  (forall core keys, P (out_info (snd (core_step R core keys)))) ->
  forall emulator : Emulator (Core R),
    Forall (fun r => P (info (rec_annotations r)))
      (records_of R emulator actions key_vectors).
Proof.
  intros HP. induction key_vectors as [|keys later IH]; intros emulator;
    simpl; [constructor|].
  unfold emulator_step.
  pose proof (HP (em emulator) keys) as Hout.
  destruct (core_step R (em emulator) keys) as [core out].
  constructor; [exact Hout|apply IH].
Qed.

(** X6.  End to end.  When the movie file opens and the emulator is made,
    at least one step is replayed, the emulator reports the same telemetry
    keys at every step, its buttons are pairwise distinct, none of them
    named like a telemetry key, and it counts at least as many buttons as it
    names: [get_variables_from_replay] returns a dataset, with both handles
    released; every telemetry key holds a sequence with one value per
    replayed step, and the sequence of the j-th button holds, step by step,
    the j-th key of the first player, the keys of any other player being
    left out. *)
Theorem get_variables_from_replay_dataset (a : Args) (w : World)
    (fuel : nat) movie emulator (fields : list string) :
  retro_Movie R (bk2_path a) = inr movie ->
  retro_make R (resolve_game a movie) (state a) (scenario a) (inttype a) false
  = inr emulator ->
  length (pending movie) < fuel ->
  replayed_steps a movie <> [] ->
  (forall core keys,
     NoDup (map fst (out_info (snd (core_step R core keys)))) /\
     (forall k, In k (map fst (out_info (snd (core_step R core keys))))
                <-> In k fields)) ->
  NoDup (buttons emulator) ->
  (forall k, In k fields -> ~ In (Some k) (buttons emulator)) ->
  length (buttons emulator) <= num_buttons emulator ->
  1 <= players movie ->
  exists w' rv infos frames states,
    get_variables_from_replay R fuel a w
    = Some (w', inr (rv, infos, frames, states)) /\
    both_released w' /\
    (forall k, In k fields ->
       exists l, dget (repetition_variables rv) (Some k) = Some (Seq l) /\
                 length l = length (replayed_steps a movie)) /\
    (forall j b, nth_error (buttons emulator) j = Some b ->
       dget (repetition_variables rv) b
       = Some (Seq (map (fun step => VBool (nth j (nth 0 step []) false))
                      (replayed_steps a movie)))).
Proof.
  intros Hm Hmk Hf Hsteps Hschema Hnd Hdisj Hnb Hp.
  rewrite (get_variables_from_replay_run R a w fuel movie emulator Hm Hmk Hf).
  set (kvs := map (step_keys (players movie) (num_buttons emulator))
                (replayed_steps a movie)).
  pose proof (records_of_keys R (prepared R emulator movie)
                (buttons emulator) kvs) as Hkeys.
  pose proof (records_of_length R (prepared R emulator movie)
                (buttons emulator) kvs) as Hlen.
  pose proof (records_of_info
                (fun i => NoDup (map fst i) /\
                          (forall k, In k (map fst i) <-> In k fields))
                (buttons emulator) kvs Hschema (prepared R emulator movie))
    as Hinfo.
  assert (Hkvs : length kvs = length (replayed_steps a movie))
    by (unfold kvs; now rewrite length_map).
  destruct (records_of R (prepared R emulator movie) (buttons emulator) kvs)
    as [|r recs] eqn:Hrecs.
  { simpl in Hlen. rewrite Hkvs in Hlen.
    destruct (replayed_steps a movie); [congruence|discriminate]. }
  rewrite Hkeys.
  set (infos := map (fun r0 => info (rec_annotations r0)) (r :: recs)).
  assert (Hfirst : forall k, In k (map fst (info (rec_annotations r)))
                             <-> In k fields).
  { inversion Hinfo; subst. tauto. }
  destruct (reformat_info_columns infos kvs (bk2_path a) (buttons emulator)
              (info (rec_annotations r))
              (map (fun r0 => info (rec_annotations r0)) recs))
    as (st & Hrun & Hf' & Hb').
  - reflexivity.
  - intros fr Hfr. unfold infos in Hfr. apply in_map_iff in Hfr.
    destruct Hfr as (r0 & <- & Hr0).
    rewrite Forall_forall in Hinfo. destruct (Hinfo r0 Hr0) as (Hnd0 & Hk0).
    split; [exact Hnd0|]. intros k. rewrite Hk0, Hfirst. tauto.
  - exact Hnd.
  - intros k Hk. apply Hdisj, Hfirst, Hk.
  - unfold infos. rewrite length_map, Hlen. lia.
  - intros i row Hi Hrow. unfold kvs in Hrow.
    rewrite nth_error_map in Hrow.
    destruct (nth_error (replayed_steps a movie) i) as [step|];
      simpl in Hrow; [|discriminate].
    inversion Hrow; subst. rewrite step_keys_length. nia.
  - rewrite Hrun.
    do 5 eexists. split; [reflexivity|]. split.
    { destruct (negb _); split; reflexivity. }
    assert (Hn : length infos = length (replayed_steps a movie)).
    { unfold infos. rewrite length_map, Hlen. exact Hkvs. }
    split.
    + intros k Hk. destruct (Hf' k (proj2 (Hfirst k) Hk)) as (l & Hl & Hll).
      exists l. split; [exact Hl|congruence].
    + intros j b Hj. rewrite (Hb' j b Hj). rewrite Hn, <- Hkvs.
      rewrite firstn_all. unfold kvs. rewrite map_map.
      do 2 f_equal. apply map_ext. intros step.
      assert (Hjlt : j < length (buttons emulator))
        by (apply nth_error_Some; congruence).
      rewrite step_keys_first_player; auto. lia.
Qed.

End DatasetFacts.

(** ** What the reformatter leaves alone, and when it raises *)

Section ReformatterEdges.

Import Replay Examples.

(** An [append] changes nothing but the list it appends to. *)
Lemma append_keeps_others (st st' : Store) (k : name) (arg : result pyval) :
  append st k arg = inr st' ->
  forall k', (forall l, dget (repetition_variables st) k' <> Some (Seq l)) ->
             dget (repetition_variables st') k'
             = dget (repetition_variables st) k'.
Proof.
  unfold append. intros Happ k' Hk'.
  destruct (dget (repetition_variables st) k) as [[v| |l]|] eqn:Hk;
    try discriminate; destruct arg as [e|v0]; simpl in Happ;
    try discriminate; inversion Happ; subst; simpl; auto.
  apply dget_dset_other. intros ->. exact (Hk' l Hk).
Qed.

Lemma info_loop_keeps_others :
  forall (frame_info : list (string * Z)) (st st' : Store),
    info_loop frame_info st = inr st' ->
    forall k', (forall l, dget (repetition_variables st) k' <> Some (Seq l)) ->
               dget (repetition_variables st') k'
               = dget (repetition_variables st) k'.
Proof.
  induction frame_info as [|[key z] rest IH]; intros st st' Hrun k' Hk';
    simpl in Hrun.
  - now inversion Hrun.
  - destruct (append st (Some key) (inr (VInt z))) as [e|st1] eqn:Happ;
      simpl in Hrun; [discriminate|].
    pose proof (append_keeps_others st st1 _ _ Happ k' Hk') as H1.
    rewrite (IH st1 st' Hrun k'); [exact H1|].
    intros l. rewrite H1. apply Hk'.
Qed.

Lemma button_loop_keeps_others (keys : list (list bool)) :
  forall (acts : list pyval) (f j : nat) (st st' : Store),
    button_loop f j acts keys st = inr st' ->
    forall k', (forall l, dget (repetition_variables st) k' <> Some (Seq l)) ->
               dget (repetition_variables st') k'
               = dget (repetition_variables st) k'.
Proof.
  induction acts as [|button rest IH]; intros f j st st' Hrun k' Hk';
    simpl in Hrun.
  - now inversion Hrun.
  - destruct (to_name button) as [k|]; [|discriminate].
    destruct (append st k (key_at keys f j)) as [e|st1] eqn:Happ;
      simpl in Hrun; [discriminate|].
    pose proof (append_keeps_others st st1 _ _ Happ k' Hk') as H1.
    rewrite (IH f (S j) st1 st' Hrun k'); [exact H1|].
    intros l. rewrite H1. apply Hk'.
Qed.

Lemma frame_loop_keeps_others (keys : list (list bool)) :
  forall (frames : list (list (string * Z))) (n : nat) (st st' : Store),
    frame_loop n frames keys st = inr st' ->
    forall k', (forall l, dget (repetition_variables st) k' <> Some (Seq l)) ->
               dget (repetition_variables st') k'
               = dget (repetition_variables st) k'.
Proof.
  induction frames as [|fr frames IH]; intros n st st' Hrun k' Hk';
    simpl in Hrun.
  - now inversion Hrun.
  - destruct (info_loop fr st) as [e|st1] eqn:H1; simpl in Hrun;
      [discriminate|].
    destruct (button_loop n 0 (actions_obj st1) keys st1) as [e|st2] eqn:H2;
      simpl in Hrun; [discriminate|].
    pose proof (info_loop_keeps_others fr st st1 H1 k' Hk') as E1.
    assert (Hk1 : forall l, dget (repetition_variables st1) k' <> Some (Seq l))
      by (intros l; rewrite E1; apply Hk').
    pose proof (button_loop_keeps_others keys _ _ _ st1 st2 H2 k' Hk1) as E2.
    rewrite (IH (S n) st2 st' Hrun k'); [congruence|].
    intros l. rewrite E2. apply Hk1.
Qed.

Lemma header_no_list (bk2_fpath : string) (key : name) (l : list pyval) :
  dget (header bk2_fpath) key <> Some (Seq l).
Proof.
  unfold header. destruct key as [k|]; simpl;
    repeat match goal with
           | |- context [if ?c then _ else _] => destruct c
           end; discriminate.
Qed.

(** X7.  Whenever [reformat_info] returns, every key that is neither a key
    of the first frame nor a button holds what lines 97-103 put there: the
    path under [filename], the parsed [level], [subject] and [session], the
    caller's list under [actions], and nothing under any other key. *)
Theorem reformat_info_keeps_header (info : list (list (string * Z)))
    (keys : list (list bool)) (bk2_fpath : string) (actions : list name)
    (first : list (string * Z)) (rest : list (list (string * Z)))
    (st : Store) (key : name) :
  reformat_info info keys bk2_fpath actions = inr st ->
  info = first :: rest ->
  ~ In key (info_keys first) ->
  ~ In key actions ->
  dget (repetition_variables st) key = dget (header bk2_fpath) key.
Proof.
  intros Hrun Hinfo Hfield Hbutton. subst info. unfold reformat_info in Hrun.
  rewrite (frame_loop_keeps_others keys _ _ _ _ Hrun key); simpl.
  - now rewrite !init_lists_notin.
  - intros l. rewrite !init_lists_notin by assumption. apply header_no_list.
Qed.

Lemma header_absent (bk2_fpath k : string) :
  ~ In k ["filename"; "level"; "subject"; "session"; "actions"] ->
  dget (header bk2_fpath) (Some k) = None.
Proof.
  intros Hk. unfold header. cbv zeta. cbn [dget name_eqb].
  repeat match goal with
         | |- context [String.eqb ?a k] =>
             destruct (String.eqb_spec a k) as [E|_];
             [exfalso; apply Hk; rewrite <- E; simpl; tauto|]
         end.
  reflexivity.
Qed.

Lemma info_loop_unknown_key (k : string) :
  forall (frame_info : list (string * Z)) (st st' : Store),
    dget (repetition_variables st) (Some k) = None ->
    In k (map fst frame_info) ->
    info_loop frame_info st <> inr st'.
Proof.
  induction frame_info as [|[k0 z0] rest IH]; intros st st' Hnone Hin;
    [contradiction|].
  simpl. destruct (append st (Some k0) (inr (VInt z0))) as [e|st1] eqn:Happ;
    simpl; [discriminate|].
  destruct (String.eqb_spec k0 k) as [->|Hne].
  - unfold append in Happ. rewrite Hnone in Happ. discriminate Happ.
  - apply IH.
    + rewrite (append_keeps_others st st1 _ _ Happ); [exact Hnone|].
      intros l. rewrite Hnone. discriminate.
    + destruct Hin as [E|Hin]; [simpl in E; congruence|exact Hin].
Qed.

Lemma frame_loop_unknown_key (keys : list (list bool)) (k : string) :
  forall (frames : list (list (string * Z))) (n : nat) (st st' : Store),
    dget (repetition_variables st) (Some k) = None ->
    (exists fr, In fr frames /\ In k (map fst fr)) ->
    frame_loop n frames keys st <> inr st'.
Proof.
  induction frames as [|fr frames IH]; intros n st st' Hnone (fr0 & Hfr0 & Hk).
  - contradiction.
  - simpl.
    destruct (info_loop fr st) as [e|st1] eqn:H1; simpl; [discriminate|].
    destruct (button_loop n 0 (actions_obj st1) keys st1) as [e|st2] eqn:H2;
      simpl; [discriminate|].
    destruct (in_dec string_dec k (map fst fr)) as [Hin|Hnin].
    + exfalso. exact (info_loop_unknown_key k fr st st1 Hnone Hin H1).
    + apply IH.
      * assert (Hns : forall l, dget (repetition_variables st) (Some k)
                                <> Some (Seq l))
          by (intros l; rewrite Hnone; discriminate).
        pose proof (info_loop_keeps_others fr st st1 H1 (Some k) Hns) as E1.
        assert (Hns1 : forall l, dget (repetition_variables st1) (Some k)
                                 <> Some (Seq l))
          by (intros l; rewrite E1; apply Hns).
        rewrite (button_loop_keeps_others keys _ _ _ st1 st2 H2 (Some k) Hns1).
        congruence.
      * destruct Hfr0 as [->|Hfr0]; [contradiction|].
        exists fr0. auto.
Qed.

(** X8.  [reformat_info] never returns when some frame has a key that the
    first frame lacks and that names neither a button nor one of the five
    entries of lines 97-103: it raises (a key of a later frame is never
    added to the record, and never dropped silently). *)
Theorem reformat_info_unknown_key_raises (info : list (list (string * Z)))
    (keys : list (list bool)) (bk2_fpath : string) (actions : list name)
    (first fr : list (string * Z)) (rest : list (list (string * Z)))
    (k : string) :
  info = first :: rest ->
  In fr info ->
  In k (map fst fr) ->
  ~ In k (map fst first) ->
  ~ In (Some k) actions ->
  ~ In k ["filename"; "level"; "subject"; "session"; "actions"] ->
  exists e, reformat_info info keys bk2_fpath actions = inl e.
Proof.
  intros Hinfo Hfr Hk Hfirst Hbutton Hheader.
  destruct (reformat_info info keys bk2_fpath actions) as [e|st] eqn:Hrun;
    [now exists e|].
  exfalso. subst info. unfold reformat_info in Hrun.
  revert Hrun. apply frame_loop_unknown_key with (k := k).
  - simpl. rewrite !init_lists_notin; auto.
    + now apply header_absent.
    + now rewrite in_info_keys.
  - exists fr. auto.
Qed.

End ReformatterEdges.

Section ReformatterErrors.

Import Replay.

Lemma info_loop_app (fr1 fr2 : list (string * Z)) :
  forall st : Store,
    info_loop (fr1 ++ fr2) st = (st1 <- info_loop fr1 st ;; info_loop fr2 st1).
Proof.
  induction fr1 as [|[k z] fr1 IH]; intros st; simpl; [reflexivity|].
  destruct (append st (Some k) (inr (VInt z))) as [e|st1]; simpl; auto.
Qed.

Lemma frame_loop_app (keys : list (list bool))
    (pre post : list (list (string * Z))) :
  forall (n : nat) (st : Store),
    frame_loop n (pre ++ post) keys st
    = (st1 <- frame_loop n pre keys st ;;
       frame_loop (n + length pre) post keys st1).
Proof.
  induction pre as [|fr pre IH]; intros n st; simpl.
  - now rewrite Nat.add_0_r.
  - destruct (info_loop fr st) as [e|st1]; simpl; auto.
    destruct (button_loop n 0 (actions_obj st1) keys st1) as [e|st2]; simpl;
      auto.
    rewrite IH. now rewrite Nat.add_succ_r.
Qed.

Variable keys : list (list bool).

(** Line 112 on keys that all hold a list: the appends go through, the
    caller's list of actions is not touched and every list is still one. *)
Lemma info_loop_runs :
  forall (frame_info : list (string * Z)) (st : Store),
    (forall k, In k (map fst frame_info) ->
               exists l, dget (repetition_variables st) (Some k)
                         = Some (Seq l)) ->
    exists st',
      info_loop frame_info st = inr st' /\
      actions_obj st' = actions_obj st /\
      (forall k', (exists l, dget (repetition_variables st) k'
                             = Some (Seq l)) ->
                  exists l, dget (repetition_variables st') k'
                            = Some (Seq l)).
Proof.
  induction frame_info as [|[k z] rest IH]; intros st Hlists.
  - exists st. simpl. auto.
  - destruct (Hlists k (or_introl eq_refl)) as (l & Hk).
    simpl.
    destruct (append st (Some k) (inr (VInt z))) as [e|st1] eqn:Happ.
    + unfold append in Happ. rewrite Hk in Happ. discriminate Happ.
    + pose proof (append_keeps_lists st st1 _ _ Happ) as Hkept.
      destruct (IH st1) as (st' & Hrun & Hact & Hkept').
      { intros k' Hk'. apply Hkept, Hlists. now right. }
      exists st'. simpl. split; [exact Hrun|]. split.
      * rewrite Hact. unfold append in Happ. rewrite Hk in Happ.
        simpl in Happ. now inversion Happ.
      * intros k' Hk'. apply Hkept', Hkept, Hk'.
Qed.

(** Lines 113-114 on a key row that covers the buttons, each of which holds
    a list. *)
Lemma button_loop_runs (f : nat) (row : list bool) :
  nth_error keys f = Some row ->
  forall (bs : list name) (j : nat) (st : Store),
    j + length bs <= length row ->
    (forall b, In b bs ->
               exists l, dget (repetition_variables st) b = Some (Seq l)) ->
    exists st',
      button_loop f j (map of_name bs) keys st = inr st' /\
      actions_obj st' = actions_obj st /\
      (forall k', (exists l, dget (repetition_variables st) k'
                             = Some (Seq l)) ->
                  exists l, dget (repetition_variables st') k'
                            = Some (Seq l)).
Proof.
  intros Hrow.
  induction bs as [|b0 bs IH]; intros j st Hlen Hlists.
  - exists st. simpl. auto.
  - destruct (Hlists b0 (or_introl eq_refl)) as (l0 & Hl0).
    simpl in Hlen. cbn [map button_loop].
    assert (Hto : to_name (of_name b0) = Some b0) by now destruct b0.
    rewrite Hto.
    destruct (append st b0 (key_at keys f j)) as [e|st1] eqn:Happ.
    + unfold append in Happ. rewrite Hl0 in Happ.
      rewrite (key_at_row keys f j row Hrow) in Happ by lia.
      discriminate Happ.
    + pose proof (append_keeps_lists st st1 _ _ Happ) as Hkept.
      destruct (IH (S j) st1) as (st' & Hrun & Hact & Hkept').
      { lia. }
      { intros b Hb. apply Hkept, Hlists. now right. }
      exists st'. cbn [bind]. split; [exact Hrun|]. split.
      * rewrite Hact. unfold append in Happ. rewrite Hl0 in Happ.
        rewrite (key_at_row keys f j row Hrow) in Happ by lia.
        simpl in Happ. now inversion Happ.
      * intros k' Hk'. apply Hkept', Hkept, Hk'.
Qed.

(** Frames with known keys only and sufficient key rows: the loop of lines
    110-114 goes through them, and every key that held a list holds one. *)
Lemma frame_loop_runs (actions : list name) (fields : list string) :
  forall (frames : list (list (string * Z))) (n : nat) (st : Store),
    (forall fr, In fr frames ->
                forall k, In k (map fst fr) -> In k fields) ->
    (forall i, n <= i < n + length frames ->
               exists row, nth_error keys i = Some row /\
                           length actions <= length row) ->
    actions_obj st = map of_name actions ->
    (forall k, In k fields ->
               exists l, dget (repetition_variables st) (Some k)
                         = Some (Seq l)) ->
    (forall b, In b actions ->
               exists l, dget (repetition_variables st) b = Some (Seq l)) ->
    exists st',
      frame_loop n frames keys st = inr st' /\
      actions_obj st' = map of_name actions /\
      (forall k, In k fields ->
                 exists l, dget (repetition_variables st') (Some k)
                           = Some (Seq l)) /\
      (forall b, In b actions ->
                 exists l, dget (repetition_variables st') b = Some (Seq l)).
Proof.
  induction frames as [|fr frames IH];
    intros n st Hframes Hrows Hact Hfields Hbuttons.
  - exists st. simpl. auto.
  - destruct (info_loop_runs fr st) as (st1 & Hrun1 & Hact1 & Hkept1).
    { intros k Hk. apply Hfields, (Hframes fr (or_introl eq_refl) k Hk). }
    destruct (Hrows n) as (row & Hrow & Hlen); [simpl; lia|].
    destruct (button_loop_runs n row Hrow actions 0 st1)
      as (st2 & Hrun2 & Hact2 & Hkept2).
    { simpl. exact Hlen. }
    { intros b Hb. apply Hkept1, Hbuttons, Hb. }
    destruct (IH (S n) st2) as (st' & Hrun & Hres).
    + intros fr' Hfr'. apply Hframes. now right.
    + intros i Hi. apply Hrows. simpl. lia.
    + now rewrite Hact2, Hact1.
    + intros k Hk. apply Hkept2, Hkept1, Hfields, Hk.
    + intros b Hb. apply Hkept2, Hkept1, Hbuttons, Hb.
    + exists st'. simpl. rewrite Hrun1. simpl. rewrite Hact1, Hact, Hrun2.
      simpl. split; [exact Hrun|exact Hres].
Qed.

(** Lines 113-114 on a key row shorter than the list of buttons: the
    buttons the row covers get their key, the next raises. *)
Lemma button_loop_short_row (f : nat) (row : list bool) :
  nth_error keys f = Some row ->
  forall (bs : list name) (j : nat) (st : Store),
    j <= length row ->
    length row < j + length bs ->
    (forall b, In b bs ->
               exists l, dget (repetition_variables st) b = Some (Seq l)) ->
    button_loop f j (map of_name bs) keys st = inl IndexError.
Proof.
  intros Hrow.
  induction bs as [|b0 bs IH]; intros j st Hj Hshort Hseq.
  - simpl in Hshort. lia.
  - destruct (Hseq b0 (or_introl eq_refl)) as (l0 & Hl0).
    cbn [map button_loop].
    assert (Hto : to_name (of_name b0) = Some b0) by now destruct b0.
    rewrite Hto.
    destruct (Nat.eq_dec j (length row)) as [E|Hne].
    + unfold append. rewrite Hl0. unfold key_at. rewrite Hrow.
      destruct (nth_error row j) eqn:Hnth; [|reflexivity].
      exfalso. assert (j < length row) by (apply nth_error_Some; congruence).
      lia.
    + destruct (append st b0 (key_at keys f j)) as [e|st1] eqn:Happ.
      * unfold append in Happ. rewrite Hl0 in Happ.
        rewrite (key_at_row keys f j row Hrow) in Happ by lia.
        discriminate Happ.
      * cbn [bind]. apply IH.
        -- lia.
        -- simpl in Hshort. lia.
        -- intros b Hb. apply (append_keeps_lists st st1 _ _ Happ).
           apply Hseq. now right.
Qed.

End ReformatterErrors.

Section ReformatterErrorClaims.

Import Replay Examples.

Lemma init_lists_has_list (ks : list name) (d : dict slot) (key : name) :
  In key ks \/ (exists l, dget d key = Some (Seq l)) ->
  exists l, dget (init_lists ks d) key = Some (Seq l).
Proof.
  assert (Hdec : forall x y : name, {x = y} + {x <> y})
    by (decide equality; apply string_dec).
  intros Hkey. destruct (in_dec Hdec key ks) as [Hin|Hnin].
  - exists []. now apply init_lists_in.
  - rewrite init_lists_notin by exact Hnin.
    destruct Hkey as [Hin|Hl]; [contradiction|exact Hl].
Qed.

(** [reformat_info] up to a frame: when the frames before it have only keys
    of the first frame and have sufficient key rows, the loop reaches that
    frame with every key of the first frame and every button holding a list
    and the rest of the record as lines 97-103 made it. *)
Lemma reformat_info_prefix (info : list (list (string * Z)))
    (keys : list (list bool)) (bk2_fpath : string) (actions : list name)
    (first : list (string * Z)) (rest pre tail : list (list (string * Z))) :
  info = first :: rest ->
  info = pre ++ tail ->
  (forall fr, In fr pre ->
              forall k, In k (map fst fr) -> In k (map fst first)) ->
  (forall i, i < length pre ->
             exists row, nth_error keys i = Some row /\
                         length actions <= length row) ->
  exists st1,
    reformat_info info keys bk2_fpath actions
    = frame_loop (length pre) tail keys st1 /\
    actions_obj st1 = map of_name actions /\
    (forall k, In k (map fst first) ->
               exists l, dget (repetition_variables st1) (Some k)
                         = Some (Seq l)) /\
    (forall b, In b actions ->
               exists l, dget (repetition_variables st1) b = Some (Seq l)) /\
    (forall key, ~ In key (info_keys first) -> ~ In key actions ->
                 dget (repetition_variables st1) key
                 = dget (header bk2_fpath) key).
Proof.
  intros Hinfo Hdec Hpre Hrows.
  unfold reformat_info. rewrite Hinfo. rewrite Hinfo in Hdec. rewrite Hdec.
  rewrite frame_loop_app.
  set (s0 := {| actions_obj := map of_name actions;
                repetition_variables :=
                  init_lists actions
                    (init_lists (info_keys first) (header bk2_fpath)) |}).
  destruct (frame_loop_runs keys actions (map fst first) pre 0 s0)
    as (st1 & Hrun & Hact & Hf & Hb).
  - exact Hpre.
  - intros i Hi. apply Hrows. lia.
  - reflexivity.
  - intros k Hk. simpl. apply init_lists_has_list. right.
    exists []. apply init_lists_in. now apply in_info_keys.
  - intros b Hin. simpl. apply init_lists_has_list. now left.
  - exists st1. rewrite Hrun. simpl.
    split; [reflexivity|]. split; [exact Hact|].
    split; [exact Hf|]. split; [exact Hb|].
    intros key Hk1 Hk2.
    rewrite (frame_loop_keeps_others keys _ _ _ _ Hrun key); simpl.
    + now rewrite !init_lists_notin.
    + intros l. rewrite !init_lists_notin by assumption.
      apply header_no_list.
Qed.

(** X9.  The first unknown key raises [KeyError].  When the frames before
    some frame have only keys of the first frame and key rows with at least
    as many entries as there are actions, and that frame has, after keys of
    the first frame, a key that the first frame lacks and that is neither an
    action nor one of [filename], [level], [subject], [session] and
    [actions], then [reformat_info] raises [KeyError] at line 112. *)
Theorem reformat_info_unknown_key_KeyError (info : list (list (string * Z)))
    (keys : list (list bool)) (bk2_fpath : string) (actions : list name)
    (first : list (string * Z)) (rest pre post : list (list (string * Z)))
    (fr1 fr2 : list (string * Z)) (k : string) (z : Z) :
  info = first :: rest ->
  info = pre ++ (fr1 ++ (k, z) :: fr2) :: post ->
  (forall fr, In fr pre ->
              forall k', In k' (map fst fr) -> In k' (map fst first)) ->
  (forall i, i < length pre ->
             exists row, nth_error keys i = Some row /\
                         length actions <= length row) ->
  (forall k', In k' (map fst fr1) -> In k' (map fst first)) ->
  ~ In k (map fst first) ->
  ~ In (Some k) actions ->
  ~ In k ["filename"; "level"; "subject"; "session"; "actions"] ->
  reformat_info info keys bk2_fpath actions = inl KeyError.
Proof.
  intros Hinfo Hdec Hpre Hrows Hsub Hk Hkb Hkh.
  destruct (reformat_info_prefix info keys bk2_fpath actions first rest pre
              _ Hinfo Hdec Hpre Hrows)
    as (st1 & -> & Hact & Hf & Hb & Hrest).
  change (frame_loop (length pre) ((fr1 ++ (k, z) :: fr2) :: post) keys st1)
    with (st <- info_loop (fr1 ++ (k, z) :: fr2) st1 ;;
          st <- button_loop (length pre) 0 (actions_obj st) keys st ;;
          frame_loop (S (length pre)) post keys st).
  rewrite info_loop_app.
  destruct (info_loop_runs fr1 st1) as (st2 & Hrun2 & _ & _).
  { intros k' Hk'. apply Hf, Hsub, Hk'. }
  rewrite Hrun2.
  assert (Hnone1 : dget (repetition_variables st1) (Some k) = None).
  { rewrite Hrest; [now apply header_absent| |exact Hkb].
    now rewrite in_info_keys. }
  assert (Hnone : dget (repetition_variables st2) (Some k) = None).
  { rewrite (info_loop_keeps_others fr1 st1 st2 Hrun2); [exact Hnone1|].
    intros l. rewrite Hnone1. discriminate. }
  cbn [bind info_loop]. unfold append. rewrite Hnone. reflexivity.
Qed.

(** X10.  The first insufficient key row raises [IndexError].  When the
    frames up to and including some frame have only keys of the first
    frame, the frames before it have key rows with at least as many entries
    as there are actions, and [keys] has no row for it (and there is an
    action) or a row with fewer entries than there are actions, then
    [reformat_info] raises [IndexError] at line 114. *)
Theorem reformat_info_short_keys_IndexError (info : list (list (string * Z)))
    (keys : list (list bool)) (bk2_fpath : string) (actions : list name)
    (first fr : list (string * Z)) (rest pre post : list (list (string * Z))) :
  info = first :: rest ->
  info = pre ++ fr :: post ->
  (forall fr', In fr' (pre ++ [fr]) ->
               forall k, In k (map fst fr') -> In k (map fst first)) ->
  (forall i, i < length pre ->
             exists row, nth_error keys i = Some row /\
                         length actions <= length row) ->
  (nth_error keys (length pre) = None /\ actions <> []) \/
  (exists row, nth_error keys (length pre) = Some row /\
               length row < length actions) ->
  reformat_info info keys bk2_fpath actions = inl IndexError.
Proof.
  intros Hinfo Hdec Hschema Hrows Hbad.
  destruct (reformat_info_prefix info keys bk2_fpath actions first rest pre
              _ Hinfo Hdec) as (st1 & -> & Hact & Hf & Hb & _); auto.
  { intros fr' Hfr'. apply Hschema, in_or_app. now left. }
  change (frame_loop (length pre) (fr :: post) keys st1)
    with (st <- info_loop fr st1 ;;
          st <- button_loop (length pre) 0 (actions_obj st) keys st ;;
          frame_loop (S (length pre)) post keys st).
  destruct (info_loop_runs fr st1) as (st2 & Hrun2 & Hact2 & Hkept2).
  { intros k Hk. apply Hf.
    apply (Hschema fr); [apply in_or_app; right; now left|exact Hk]. }
  rewrite Hrun2. cbn [bind]. rewrite Hact2, Hact.
  assert (Hb2 : forall b, In b actions ->
                  exists l, dget (repetition_variables st2) b = Some (Seq l)).
  { intros b Hin. apply Hkept2, Hb, Hin. }
  destruct Hbad as [[Hnone Hne]|(row & Hrow & Hshort)].
  - destruct actions as [|b0 bs]; [congruence|].
    destruct (Hb2 b0 (or_introl eq_refl)) as (l0 & Hl0).
    cbn [map button_loop].
    assert (Hto : to_name (of_name b0) = Some b0) by now destruct b0.
    rewrite Hto. unfold append, key_at. rewrite Hl0, Hnone. reflexivity.
  - rewrite (button_loop_short_row keys (length pre) row Hrow actions 0 st2);
      auto; lia.
Qed.

End ReformatterErrorClaims.

(** ** The metadata of a file name *)

Section FilenameEdges.

Import Replay.

Lemma contains_append (sep : ascii) (a b : string) :
  contains sep (a ++ b)%string = contains sep a || contains sep b.
Proof.
  induction a as [|c a IH]; simpl; [reflexivity|].
  now rewrite IH, orb_assoc.
Qed.

Lemma split1_token (sep : ascii) (key value : string) :
  contains sep key = false ->
  split1 sep (key ++ String sep value)%string = [key; value].
Proof.
  induction key as [|c key IH]; cbn [split1 String.append contains];
    intros Hk.
  - now rewrite Ascii.eqb_refl.
  - apply orb_false_iff in Hk. destruct Hk as (Hc & Hk).
    rewrite Hc, (IH Hk). reflexivity.
Qed.

(** Tokens that do not start with [field-] leave the field as it is. *)
Lemma parse_step_keeps (field : string) (toks : list string) :
  forall d : dict string,
    (forall tok, In tok toks ->
                 String.prefix (field ++ "-")%string tok = false) ->
    dget
      (fold_left
         (fun entities_dict ent =>
            if contains "-" ent then
              match split1 "-" ent with
              | [key; value] => dset entities_dict (Some key) value
              | _ => entities_dict
              end
            else entities_dict) toks d) (Some field)
    = dget d (Some field).
Proof.
  induction toks as [|tok toks IH]; intros d Htoks; simpl; auto.
  rewrite IH by (intros t Ht; apply Htoks; now right).
  destruct (contains "-" tok); auto.
  destruct (split1 "-" tok) as [|key [|value [|x more]]] eqn:Hs; auto.
  destruct (String.eqb_spec key field) as [->|Hne].
  - exfalso. apply split1_two in Hs.
    specialize (Htoks tok (or_introl eq_refl)).
    rewrite Hs, prefix_head in Htoks. discriminate.
  - rewrite dget_dset_other; auto. congruence.
Qed.

(** X11.  The value of a field is what follows the first dash of the last
    token of the base name that starts with the field and a dash: for a
    base name whose tokens are [toks1], then [k-v] with no dash in [k], then
    tokens that do not start with [k-], the parsed field [k] is [v]
    (whatever dashes and dots [v] has); so are [subject], [session] and
    [level] for [k] the fields [sub], [ses] and [level]. *)
Theorem parse_entities_last_token (bk2_fpath k v : string)
    (toks1 toks2 : list string) :
  split "_" (basename bk2_fpath) = toks1 ++ (k ++ "-" ++ v)%string :: toks2 ->
  contains "-" k = false ->
  (forall tok, In tok toks2 -> String.prefix (k ++ "-")%string tok = false) ->
  dget (parse_entities (basename bk2_fpath)) (Some k) = Some v /\
  (k = "sub" ->
   dget (header bk2_fpath) (Some "subject") = Some (Scalar (VStr v))) /\
  (k = "ses" ->
   dget (header bk2_fpath) (Some "session") = Some (Scalar (VStr v))) /\
  (k = "level" ->
   dget (header bk2_fpath) (Some "level") = Some (Scalar (VStr v))).
Proof.
  intros Hsplit Hk Hlater.
  assert (Hparse : dget (parse_entities (basename bk2_fpath)) (Some k)
                   = Some v).
  { unfold parse_entities. rewrite Hsplit, fold_left_app.
    cbn [fold_left].
    rewrite (parse_step_keeps k toks2) by exact Hlater.
    change (k ++ "-" ++ v)%string with (k ++ String "-" v)%string.
    assert (Hc : contains "-" (k ++ String "-" v)%string = true).
    { rewrite contains_append. cbn [contains]. rewrite Ascii.eqb_refl.
      now rewrite orb_true_r. }
    rewrite Hc, (split1_token "-" k v Hk).
    apply dget_dset_same. }
  split; [exact Hparse|].
  split; [|split]; intros ->; unfold header; cbv zeta;
    cbn [dget name_eqb String.eqb Ascii.eqb Bool.eqb]; rewrite Hparse;
    reflexivity.
Qed.

(** X12.  Only the base name is parsed: for a file name without a slash,
    the [level], [subject] and [session] of a path that ends in a slash and
    that name are those of the name alone, whatever the directories are
    called, while [filename] holds the path as given. *)
Theorem header_ignores_directories (dir fname : string) :
  contains "/" fname = false ->
  let bk2_fpath := (dir ++ "/" ++ fname)%string in
  dget (header bk2_fpath) (Some "level")
  = dget (header fname) (Some "level") /\
  dget (header bk2_fpath) (Some "subject")
  = dget (header fname) (Some "subject") /\
  dget (header bk2_fpath) (Some "session")
  = dget (header fname) (Some "session") /\
  dget (header bk2_fpath) (Some "filename") = Some (Scalar (VStr bk2_fpath)).
Proof.
  intros Hf bk2_fpath.
  assert (E1 : basename bk2_fpath = fname) by now apply basename_of_join.
  assert (E2 : basename fname = fname).
  { unfold basename. now rewrite (split_no_sep "/" fname Hf). }
  unfold header. rewrite E1, E2. repeat split; reflexivity.
Qed.

End FilenameEdges.

(** ** Frames that lack a key *)

Section MissingKeys.

Import Replay Examples.

Lemma info_get_absent (frame_info : list (string * Z)) (k : string) :
  ~ In k (map fst frame_info) -> info_get frame_info k = None.
Proof.
  unfold info_get. induction frame_info as [|[k0 z0] rest IH]; intros Hk;
    simpl; [reflexivity|].
  destruct (String.eqb_spec k k0) as [->|Hne].
  - exfalso. apply Hk. now left.
  - apply IH. intros Hin. apply Hk. now right.
Qed.

(** Lines 111-112 on a frame whose keys all have a list: each list gets the
    frame's value of its key, if the frame has one. *)
Lemma info_loop_values :
  forall (frame_info : list (string * Z)) (st : Store),
    NoDup (map fst frame_info) ->
    (forall k, In k (map fst frame_info) ->
               exists l, dget (repetition_variables st) (Some k) = Some (Seq l)) ->
    exists st',
      info_loop frame_info st = inr st' /\
      actions_obj st' = actions_obj st /\
      (forall key, ~ In key (info_keys frame_info) ->
                   dget (repetition_variables st') key
                   = dget (repetition_variables st) key) /\
      (forall k l, dget (repetition_variables st) (Some k) = Some (Seq l) ->
                   dget (repetition_variables st') (Some k)
                   = Some (Seq (l ++ match info_get frame_info k with
                                     | Some z => [VInt z]
                                     | None => []
                                     end))).
Proof.
  induction frame_info as [|[k0 z0] rest IH]; intros st Hnd Hseq.
  - exists st. simpl. repeat split; auto.
    intros k l Hl. now rewrite app_nil_r.
  - simpl in Hnd. inversion Hnd as [|? ? Hnotin Hnd']; subst.
    destruct (Hseq k0 (or_introl eq_refl)) as (l0 & Hl0).
    simpl. unfold append. rewrite Hl0. simpl.
    match goal with
    | |- context [info_loop rest ?s1] =>
        destruct (IH s1 Hnd') as (st' & Hrun & Hact & Hother & Hval)
    end.
    { intros k Hk. simpl.
      destruct (Hseq k (or_intror Hk)) as (l & Hl).
      exists l. rewrite dget_dset_other; auto.
      intros E. inversion E; subst. contradiction. }
    simpl in Hact, Hother, Hval.
    exists st'. split; [exact Hrun|]. split; [exact Hact|]. split.
    + intros key Hkey. simpl in Hkey.
      rewrite Hother by (intros H; apply Hkey; now right).
      apply dget_dset_other. intros E. apply Hkey. now left.
    + intros k l Hl. unfold info_get. simpl.
      destruct (String.eqb_spec k k0) as [->|Hne].
      * rewrite Hl0 in Hl. inversion Hl; subst l0.
        rewrite (Hval k0 (l ++ [VInt z0])) by apply dget_dset_same.
        rewrite (info_get_absent rest k0 Hnotin). simpl.
        now rewrite app_nil_r.
      * apply Hval. rewrite dget_dset_other; auto. congruence.
Qed.

Variable keys : list (list bool).
Variable actions : list name.
Variable fields : list string.

Hypothesis actions_distinct : NoDup actions.
Hypothesis fields_not_buttons : forall k, In k fields -> ~ In (Some k) actions.

Lemma frame_loop_present :
  forall (frames : list (list (string * Z))) (n m : nat) (st : Store)
         (acc : string -> list pyval),
    (forall fr, In fr frames ->
                NoDup (map fst fr) /\
                (forall k, In k (map fst fr) -> In k fields)) ->
    (forall i, n <= i < n + length frames ->
               exists row, nth_error keys i = Some row /\
                           length actions <= length row) ->
    actions_obj st = map of_name actions ->
    (forall k, In k fields ->
               dget (repetition_variables st) (Some k) = Some (Seq (acc k))) ->
    (forall b, In b actions ->
               exists l, dget (repetition_variables st) b = Some (Seq l) /\
                         length l = m) ->
    exists st',
      frame_loop n frames keys st = inr st' /\
      (forall k, In k fields ->
                 dget (repetition_variables st') (Some k)
                 = Some (Seq (acc k ++ present_values k frames))) /\
      (forall b, In b actions ->
                 exists l, dget (repetition_variables st') b = Some (Seq l) /\
                           length l = m + length frames).
Proof.
  induction frames as [|fr frames IH];
    intros n m st acc Hframes Hrows Hact Hfields Hbuttons.
  - exists st. simpl. split; [reflexivity|]. split.
    + intros k Hk. rewrite app_nil_r. now apply Hfields.
    + intros b Hb. rewrite Nat.add_0_r. now apply Hbuttons.
  - destruct (Hframes fr (or_introl eq_refl)) as (Hnd & Hsub).
    destruct (info_loop_values fr st Hnd) as (st1 & Hrun1 & Hact1 & Hoth1 & Hval1).
    { intros k Hk. eexists. apply Hfields, Hsub, Hk. }
    assert (Hbutton_kept : forall b, In b actions ->
              dget (repetition_variables st1) b
              = dget (repetition_variables st) b).
    { intros b Hb. apply Hoth1. intros Hin.
      destruct b as [k|].
      - apply in_info_keys, Hsub in Hin. exact (fields_not_buttons k Hin Hb).
      - unfold info_keys in Hin. apply in_map_iff in Hin.
        destruct Hin as (kv & E & _). discriminate E. }
    destruct (Hrows n) as (row & Hrow & Hlen); [simpl; lia|].
    destruct (button_loop_appends keys n row Hrow actions 0 st1
                actions_distinct)
      as (st2 & Hrun2 & Hact2 & Hoth2 & Happ2).
    { simpl. exact Hlen. }
    { intros b Hb. rewrite (Hbutton_kept b Hb).
      destruct (Hbuttons b Hb) as (l & Hl & _). eauto. }
    destruct (IH (S n) (S m) st2
                (fun k => acc k ++ match info_get fr k with
                                   | Some z => [VInt z]
                                   | None => []
                                   end))
      as (st' & Hrun & Hf' & Hb').
    + intros fr' Hfr'. apply Hframes. now right.
    + intros i Hi. apply Hrows. simpl. lia.
    + now rewrite Hact2, Hact1.
    + intros k Hk.
      rewrite Hoth2 by exact (fields_not_buttons k Hk).
      apply Hval1, Hfields, Hk.
    + intros b Hb. destruct (In_nth_error _ _ Hb) as (j & Hj).
      destruct (Hbuttons b Hb) as (l & Hl & Hm).
      eexists. split.
      * apply (Happ2 j b l Hj). now rewrite (Hbutton_kept b Hb).
      * rewrite length_app, Hm. simpl. lia.
    + exists st'. simpl frame_loop. rewrite Hrun1. simpl.
      rewrite Hact1, Hact, Hrun2. simpl. split; [exact Hrun|]. split.
      * intros k Hk. rewrite (Hf' k Hk). simpl. now rewrite <- app_assoc.
      * intros b Hb. destruct (Hb' b Hb) as (l & Hl & Hm).
        exists l. split; [exact Hl|]. simpl. lia.
Qed.

End MissingKeys.

Section MissingKeysClaims.

Import Replay Examples.

(** X13.  Frames may lack keys of the first frame without any error: when
    every frame has only keys of the first frame (each once), the action
    names are pairwise distinct, none of them an info key, and the key rows
    suffice, [reformat_info] returns; the sequence of an info key holds the
    values of the frames that have the key, in their order, so that it is
    shorter than the number of frames and shifted against the button
    sequences, which have one entry per frame, as soon as one frame lacks
    the key. *)
Theorem reformat_info_present_values (info : list (list (string * Z)))
    (keys : list (list bool)) (bk2_fpath : string) (actions : list name)
    (first : list (string * Z)) (rest : list (list (string * Z))) :
  info = first :: rest ->
  (forall fr, In fr info ->
              NoDup (map fst fr) /\
              (forall k, In k (map fst fr) -> In k (map fst first))) ->
  NoDup actions ->
  (forall k, In k (map fst first) -> ~ In (Some k) actions) ->
  (forall i, i < length info ->
             exists row, nth_error keys i = Some row /\
                         length actions <= length row) ->
  exists st,
    reformat_info info keys bk2_fpath actions = inr st /\
    (forall k, In k (map fst first) ->
               dget (repetition_variables st) (Some k)
               = Some (Seq (present_values k info))) /\
    (forall b, In b actions ->
               exists l, dget (repetition_variables st) b = Some (Seq l) /\
                         length l = length info).
Proof.
  intros Hinfo Hframes Hnd Hdisj Hrows.
  destruct (frame_loop_present keys actions (map fst first) Hnd Hdisj info 0 0
              {| actions_obj := map of_name actions;
                 repetition_variables :=
                   init_lists actions
                     (init_lists (info_keys first) (header bk2_fpath)) |}
              (fun _ => []))
    as (st & Hrun & Hf & Hb).
  - exact Hframes.
  - intros i Hi. apply Hrows. lia.
  - reflexivity.
  - intros k Hk. simpl.
    rewrite init_lists_notin by exact (Hdisj k Hk).
    apply init_lists_in. now apply in_info_keys.
  - intros b Hin. exists []. split; [|reflexivity]. simpl.
    now apply init_lists_in.
  - exists st. split.
    + unfold reformat_info. rewrite Hinfo. rewrite Hinfo in Hrun. exact Hrun.
    + split; [exact Hf|exact Hb].
Qed.

End MissingKeysClaims.

(** ** More on the MP4 exporter *)

Section Mp4Edges.

Import Video Examples.

Variable H : Host.
Variable Frame : Type.

(** X14.  With audio and a sample rate, and a video writer that does not
    raise, the external calls of [make_mp4] are, in this order: [mkdtemp],
    the video writer, one info log line if and only if the audio is not
    [int16] already, [write_wav] on the temporary waveform path with the
    sample rate, and one run of [ffmpeg -y -i video -i audio -c:v copy -c:a
    aac -shortest output], whose last word is [str(Path(movie_fname))];
    whatever the run gives, nothing else is called or logged. *)
Theorem make_mp4_audio_trace (selected_frames : list Frame)
    (movie_fname : string) (audio : Audio) (sample_rate fps : Z) (w : World)
    (b : bool) :
  ffmpeg_writer H (temp_video_of H) fps (length selected_frames) = inr b ->
  trace (fst (make_mp4 H Frame selected_frames movie_fname (Some audio)
                (Some sample_rate) fps w))
  = trace w
    ++ [Ev_mkdtemp (temp_dir_of H);
        Ev_encode (temp_video_of H) fps (length selected_frames)]
    ++ (if dtype_eqb (audio_dtype audio) int16 then []
        else [Ev_log INFO "Casting audio to int16 before muxing"])
    ++ [Ev_write_wav (temp_audio_of H) sample_rate;
        Ev_run ["ffmpeg"; "-y"; "-i"; temp_video_of H; "-i"; temp_audio_of H;
                "-c:v"; "copy"; "-c:a"; "aac"; "-shortest";
                Path movie_fname]].
Proof.
  intros Hw.
  unfold make_mp4, mux, cleanup, try_finally, try_except, run_checked,
    tempfile_mkdtemp, write_video, write_wav, logging, mbind, mkdir, emit,
    unlink, rmdir, ret, raise, touch, mux_cmd.
  simpl. fold (temp_dir_of H). fold (temp_video_of H). rewrite Hw.
  fold (temp_audio_of H).
  destruct b; destruct (dtype_eqb (audio_dtype audio) int16); simpl;
    destruct (subprocess_run H _) as [|code]; simpl;
    try destruct (Z.eqb code 0); simpl;
    repeat match goal with
           | |- context [if ?c then _ else _] => destruct c; simpl
           end;
    repeat rewrite <- app_assoc; reflexivity.
Qed.

(** X15.  When the video writer raises, [make_mp4] raises the same error at
    once, with or without audio: nothing further is called and nothing is
    cleaned up.  The temporary directory made at line 43 is left behind, and
    in it the temporary video if the writer had created it by then; the other
    files are as before. *)
Theorem make_mp4_writer_error (selected_frames : list Frame)
    (movie_fname : string) (audio : option Audio) (sample_rate : option Z)
    (fps : Z) (w : World) (e : exn) :
  ffmpeg_writer H (temp_video_of H) fps (length selected_frames) = inl e ->
  let after := make_mp4 H Frame selected_frames movie_fname audio sample_rate
                 fps w in
  snd after = inl e /\
  (In (temp_video_of H) (files (fst after))
   <-> In (temp_video_of H) (files w) \/
       writer_leaves_file H (temp_video_of H) fps (length selected_frames)
       = true) /\
  (forall f, f <> temp_video_of H ->
             (In f (files (fst after)) <-> In f (files w))) /\
  dirs (fst after) = dirs w ++ [temp_dir_of H] /\
  trace (fst after)
  = trace w ++ [Ev_mkdtemp (temp_dir_of H);
                Ev_encode (temp_video_of H) fps (length selected_frames)].
Proof.
  intros Hw.
  unfold make_mp4, tempfile_mkdtemp, write_video, mbind, mkdir, emit, ret,
    raise, touch.
  simpl. fold (temp_dir_of H). fold (temp_video_of H). rewrite Hw. simpl.
  destruct (writer_leaves_file H (temp_video_of H) fps
              (length selected_frames)); simpl.
  - split; [reflexivity|]. split; [|split; [|split]].
    + split; [auto|]. intros _. apply in_or_app. right. now left.
    + intros f Hf. rewrite in_app_iff, in_without. simpl. intuition congruence.
    + reflexivity.
    + now rewrite <- app_assoc.
  - split; [reflexivity|]. split; [|split; [|split]].
    + split; [auto|]. intros [Hin|E]; [exact Hin|discriminate E].
    + intros f _. reflexivity.
    + reflexivity.
    + now rewrite <- app_assoc.
Qed.

(** X16.  Without audio or without a sample rate, when the video writer
    returns but has left no file at the temporary video path, the move of
    line 58 raises [FileNotFoundError]: nothing is at the final path that
    was not there before, and the temporary directory is left behind. *)
Theorem make_mp4_silent_video_missing (selected_frames : list Frame)
    (movie_fname : string) (audio : option Audio) (sample_rate : option Z)
    (fps : Z) (w : World) :
  audio = None \/ sample_rate = None ->
  ffmpeg_writer H (temp_video_of H) fps (length selected_frames) = inr false ->
  ~ In (temp_video_of H) (files w) ->
  let after := make_mp4 H Frame selected_frames movie_fname audio sample_rate
                 fps w in
  snd after = inl FileNotFoundError /\
  files (fst after) = files w /\
  In (temp_dir_of H) (dirs (fst after)).
Proof.
  intros Hmissing Hw Hnew after.
  assert (Hsilent :
            after
            = make_mp4 H Frame selected_frames movie_fname None None fps w).
  { subst after. destruct Hmissing as [->| ->]; [now destruct sample_rate|].
    now destruct audio. }
  rewrite Hsilent.
  unfold make_mp4, tempfile_mkdtemp, write_video, replace, mbind, mkdir,
    emit, ret, raise.
  simpl. fold (temp_dir_of H). fold (temp_video_of H). rewrite Hw. simpl.
  assert (Hmem : mem (temp_video_of H) (files w) = false).
  { unfold mem. apply existsb_false. intros f Hf.
    destruct (String.eqb_spec (temp_video_of H) f); [congruence|reflexivity]. }
  rewrite Hmem. simpl.
  split; [reflexivity|]. split; [reflexivity|].
  apply in_or_app. right. now left.
Qed.

(** X17.  The file operations of [make_mp4] itself (the move, the two
    [unlink], [rmdir], [mkdtemp]) bear on the final path
    [str(Path(movie_fname))], its two temporary files and its temporary
    directory only.  So, with a video writer that writes nowhere but at the
    temporary video path and an [ffmpeg] run that writes nowhere but at its
    output path, any other file exists after the call exactly when it did
    before, and so does any other directory, whatever the arguments and
    however the writer, the move and the run end. *)
Theorem make_mp4_leaves_the_rest (selected_frames : list Frame)
    (movie_fname : string) (audio : option Audio) (sample_rate : option Z)
    (fps : Z) (w : World) (f d : string) :
  f <> Path movie_fname ->
  f <> temp_video_of H ->
  f <> temp_audio_of H ->
  d <> temp_dir_of H ->
  let after := make_mp4 H Frame selected_frames movie_fname audio sample_rate
                 fps w in
  (In f (files (fst after)) <-> In f (files w)) /\
  (In d (dirs (fst after)) <-> In d (dirs w)).
Proof.
  intros Hf1 Hf2 Hf3 Hd.
  unfold make_mp4, mux, cleanup, try_finally, try_except, run_checked,
    tempfile_mkdtemp, write_video, write_wav, replace, logging, mbind, mkdir,
    emit, unlink, rmdir, ret, raise, touch, mux_cmd.
  simpl. fold (temp_dir_of H). fold (temp_video_of H).
  fold (temp_audio_of H).
  destruct (ffmpeg_writer H (temp_video_of H) fps (length selected_frames))
    as [e|[|]]; destruct audio as [a|]; destruct sample_rate as [r|]; simpl;
    try destruct (dtype_eqb (audio_dtype a) int16); simpl;
    try (destruct (subprocess_run H _) as [|code]; simpl;
         try destruct (Z.eqb code 0); simpl);
    repeat match goal with
           | |- context [if ?c then _ else _] => destruct c; simpl
           | |- context [match replace_error H ?a ?b with _ => _ end] =>
               destruct (replace_error H a b); simpl
           end;
    repeat (rewrite ?in_app_iff, ?in_without; simpl);
    intuition congruence.
Qed.

End Mp4Edges.

(** ** The further properties on concrete inputs *)

Section FurtherExamples.

Import Replay Video Examples.

Lemma replay_bk2_records_witness :
  exists w',
    collect (counting [press_right; press_right]) 3
      (replay_bk2 _ (args true)) fresh
    = (w', Finished _,
       Done (records_of (counting [press_right; press_right])
               (prepared (counting [press_right; press_right]) nes
                  (movie_of [press_right; press_right]))
               nes_buttons
               (map (step_keys 1 9) [press_right]))) /\
    both_released w'.
Proof.
  apply (replay_bk2_records (counting [press_right; press_right])
           (args true) fresh 3 (movie_of [press_right; press_right]) nes).
  - reflexivity.
  - reflexivity.
  - simpl. lia.
Defined.

Lemma replay_bk2_key_vectors_witness :
  exists w_off recs_off w_on recs_on,
    collect (counting [press_right; []]) 3
      (replay_bk2 _ (with_skip (args false) false)) fresh
    = (w_off, Finished _, Done recs_off) /\
    collect (counting [press_right; []]) 3
      (replay_bk2 _ (with_skip (args false) true)) fresh
    = (w_on, Finished _, Done recs_on) /\
    map rec_keys recs_off = map (step_keys 1 9) [press_right; []] /\
    map rec_keys recs_on = tl (map rec_keys recs_off).
Proof.
  apply (replay_bk2_key_vectors (counting [press_right; []])
           (args false) fresh 3 (movie_of [press_right; []]) nes).
  - reflexivity.
  - reflexivity.
  - simpl. lia.
Defined.

Lemma get_variables_from_replay_make_fails_witness :
  exists w',
    get_variables_from_replay (no_integration [press_right]) 1 (args true)
      fresh = Some (w', inl FileNotFoundError) /\
    movie_h w' = Held /\
    emulator_h w' = Absent.
Proof.
  apply (get_variables_from_replay_make_fails (no_integration [press_right])
           (args true) fresh 1 (movie_of [press_right]) FileNotFoundError).
  - reflexivity.
  - reflexivity.
  - lia.
Defined.


Lemma get_variables_from_replay_warning_witness :
  exists w' res,
    get_variables_from_replay (counting [press_right; press_right]) 3
      (args true) fresh = Some (w', res) /\
    log w'
    = [{| lvl := DEBUG;
          text := "Creating emulator for game: SuperMarioBros-Nes" |};
       {| lvl := WARNING;
          text := "Done condition not satisfied for sub-01_ses-02_level-W1_run-1.bk2. Consider changing skip_first_step." |}].
Proof.
  destruct (get_variables_from_replay_warning
              (counting [press_right; press_right]) (args true) fresh 3
              (movie_of [press_right; press_right]) nes eq_refl eq_refl)
    as (w' & res & Hrun & Hlog).
  - simpl. lia.
  - exists w', res. split; [exact Hrun|].
    rewrite Hlog. vm_compute in Hrun. inversion Hrun; subst. reflexivity.
Defined.

Lemma get_variables_from_replay_dataset_witness :
  exists w' rv infos frames states,
    get_variables_from_replay (counting [press_right; press_right]) 3
      (args false) fresh
    = Some (w', inr (rv, infos, frames, states)) /\
    both_released w' /\
    (forall k, In k ["score"] ->
       exists l, dget (repetition_variables rv) (Some k) = Some (Seq l) /\
                 length l = 2) /\
    (forall j b, nth_error nes_buttons j = Some b ->
       dget (repetition_variables rv) b
       = Some (Seq (map (fun step => VBool (nth j (nth 0 step []) false))
                      [press_right; press_right]))).
Proof.
  apply (get_variables_from_replay_dataset
           (counting [press_right; press_right]) (args false) fresh 3
           (movie_of [press_right; press_right]) nes ["score"]).
  - reflexivity.
  - reflexivity.
  - simpl. lia.
  - discriminate.
  - intros core keys. simpl. split; [|tauto].
    constructor; [intros []|constructor].
  - unfold nes, nes_buttons. simpl.
    repeat (constructor; [simpl; intuition discriminate|]). constructor.
  - intros k [<-|[]]. simpl. intuition discriminate.
  - simpl. lia.
  - simpl. lia.
Defined.

Lemma reformat_info_keeps_header_witness :
  exists st,
    reformat_info two_frames two_rows
      "/data/sub-01_ses-02_level-W1_run-1.bk2" two_buttons = inr st /\
    dget (repetition_variables st) (Some "subject")
    = dget (header "/data/sub-01_ses-02_level-W1_run-1.bk2") (Some "subject").
Proof.
  eexists. split; [reflexivity|].
  apply (reformat_info_keeps_header two_frames two_rows
           "/data/sub-01_ses-02_level-W1_run-1.bk2" two_buttons
           [("score", 0%Z); ("lives", 3%Z)]
           [[("lives", 3%Z); ("score", 100%Z)]]).
  - reflexivity.
  - reflexivity.
  - simpl. intuition discriminate.
  - simpl. intuition discriminate.
Defined.

Lemma reformat_info_unknown_key_raises_witness :
  exists e, reformat_info lives_added two_rows "run.bk2" two_buttons = inl e.
Proof.
  apply (reformat_info_unknown_key_raises lives_added two_rows "run.bk2"
           two_buttons [("score", 1%Z)] [("score", 2%Z); ("lives", 3%Z)]
           [[("score", 2%Z); ("lives", 3%Z)]] "lives").
  - reflexivity.
  - simpl. tauto.
  - simpl. tauto.
  - simpl. intuition discriminate.
  - simpl. intuition discriminate.
  - simpl. intuition discriminate.
Defined.

Lemma reformat_info_unknown_key_KeyError_witness :
  reformat_info lives_added wide_rows "run.bk2" doubled_buttons
  = inl KeyError.
Proof.
  apply (reformat_info_unknown_key_KeyError lives_added wide_rows "run.bk2"
           doubled_buttons [("score", 1%Z)]
           [[("score", 2%Z); ("lives", 3%Z)]]
           [[("score", 1%Z)]] [] [("score", 2%Z)] [] "lives" 3%Z).
  - reflexivity.
  - reflexivity.
  - intros fr [<-|[]] k' Hk'. exact Hk'.
  - intros [|i] Hi; [|simpl in Hi; lia].
    exists [true; false; true]. split; [reflexivity|simpl; lia].
  - intros k' Hk'. exact Hk'.
  - simpl. intuition discriminate.
  - simpl. intuition discriminate.
  - simpl. intuition discriminate.
Defined.

Lemma reformat_info_short_keys_IndexError_witness :
  reformat_info two_frames [[true; false; true]] "run.bk2" doubled_buttons
  = inl IndexError.
Proof.
  apply (reformat_info_short_keys_IndexError two_frames [[true; false; true]]
           "run.bk2" doubled_buttons [("score", 0%Z); ("lives", 3%Z)]
           [("lives", 3%Z); ("score", 100%Z)]
           [[("lives", 3%Z); ("score", 100%Z)]]
           [[("score", 0%Z); ("lives", 3%Z)]] []).
  - reflexivity.
  - reflexivity.
  - intros fr [<-|[<-|[]]] k Hk; simpl in *; tauto.
  - intros [|i] Hi; [|simpl in Hi; lia].
    exists [true; false; true]. split; [reflexivity|simpl; lia].
  - left. split; [reflexivity|discriminate].
Defined.

Lemma parse_entities_last_token_witness :
  dget (parse_entities (basename "/data/sub-01_level-W1_level-W2-bis.bk2"))
    (Some "level") = Some "W2-bis.bk2" /\
  ("level" = "sub" ->
   dget (header "/data/sub-01_level-W1_level-W2-bis.bk2") (Some "subject")
   = Some (Scalar (VStr "W2-bis.bk2"))) /\
  ("level" = "ses" ->
   dget (header "/data/sub-01_level-W1_level-W2-bis.bk2") (Some "session")
   = Some (Scalar (VStr "W2-bis.bk2"))) /\
  ("level" = "level" ->
   dget (header "/data/sub-01_level-W1_level-W2-bis.bk2") (Some "level")
   = Some (Scalar (VStr "W2-bis.bk2"))).
Proof.
  apply (parse_entities_last_token "/data/sub-01_level-W1_level-W2-bis.bk2"
           "level" "W2-bis.bk2" ["sub-01"; "level-W1"] []).
  - reflexivity.
  - reflexivity.
  - intros tok [].
Defined.

Lemma header_ignores_directories_witness :
  let bk2_fpath := "/data/sub-99/ses-07/sub-01_ses-02_level-W1_run-1.bk2" in
  dget (header bk2_fpath) (Some "level")
  = dget (header "sub-01_ses-02_level-W1_run-1.bk2") (Some "level") /\
  dget (header bk2_fpath) (Some "subject")
  = dget (header "sub-01_ses-02_level-W1_run-1.bk2") (Some "subject") /\
  dget (header bk2_fpath) (Some "session")
  = dget (header "sub-01_ses-02_level-W1_run-1.bk2") (Some "session") /\
  dget (header bk2_fpath) (Some "filename") = Some (Scalar (VStr bk2_fpath)).
Proof.
  apply (header_ignores_directories "/data/sub-99/ses-07"
           "sub-01_ses-02_level-W1_run-1.bk2").
  reflexivity.
Defined.

Lemma reformat_info_present_values_witness :
  exists st,
    reformat_info lives_dropped three_rows "run.bk2" two_buttons = inr st /\
    (forall k, In k ["score"; "lives"] ->
               dget (repetition_variables st) (Some k)
               = Some (Seq (present_values k lives_dropped))) /\
    (forall b, In b two_buttons ->
               exists l, dget (repetition_variables st) b = Some (Seq l) /\
                         length l = 3).
Proof.
  apply (reformat_info_present_values lives_dropped three_rows "run.bk2"
           two_buttons [("score", 1%Z); ("lives", 3%Z)]
           [[("score", 2%Z)]; [("score", 3%Z); ("lives", 2%Z)]]).
  - reflexivity.
  - intros fr [<-|[<-|[<-|[]]]]; split;
      try (repeat constructor; simpl; intuition discriminate);
      simpl; intuition.
  - repeat (constructor; [simpl; intuition discriminate|]). constructor.
  - intros k [<-|[<-|[]]] [E|[E|[]]]; discriminate E.
  - intros [|[|[|i]]] Hi; try (simpl in Hi; lia);
      eexists; (split; [reflexivity|simpl; lia]).
Defined.

Lemma make_mp4_audio_trace_witness :
  trace (fst (make_mp4 (host (Some 1%Z)) nat [0; 1] "./clips//out.mp4"
                (Some beep) (Some 44100%Z) 60%Z nothing_yet))
  = [Ev_mkdtemp "/tmp/cneuromod_vg_utils_k3x9";
     Ev_encode "/tmp/cneuromod_vg_utils_k3x9/video_only.mp4" 60%Z 2;
     Ev_log INFO "Casting audio to int16 before muxing";
     Ev_write_wav "/tmp/cneuromod_vg_utils_k3x9/audio.wav" 44100%Z;
     Ev_run ["ffmpeg"; "-y"; "-i";
             "/tmp/cneuromod_vg_utils_k3x9/video_only.mp4"; "-i";
             "/tmp/cneuromod_vg_utils_k3x9/audio.wav";
             "-c:v"; "copy"; "-c:a"; "aac"; "-shortest"; "clips/out.mp4"]].
Proof.
  apply (make_mp4_audio_trace (host (Some 1%Z)) nat [0; 1] "./clips//out.mp4"
           beep 44100%Z 60%Z nothing_yet true).
  reflexivity.
Defined.

Lemma make_mp4_writer_error_witness :
  let after := make_mp4 (host_with_broken_writer (LibraryError "skvideo")) nat
                 [0; 1] "out.mp4" (Some beep) (Some 44100%Z) 60%Z
                 nothing_yet in
  snd after = inl (LibraryError "skvideo") /\
  In "/tmp/cneuromod_vg_utils_k3x9/video_only.mp4" (files (fst after)) /\
  dirs (fst after) = ["/tmp"; "/tmp/cneuromod_vg_utils_k3x9"] /\
  trace (fst after)
  = [Ev_mkdtemp "/tmp/cneuromod_vg_utils_k3x9";
     Ev_encode "/tmp/cneuromod_vg_utils_k3x9/video_only.mp4" 60%Z 2].
Proof.
  destruct (make_mp4_writer_error
              (host_with_broken_writer (LibraryError "skvideo")) nat [0; 1]
              "out.mp4" (Some beep) (Some 44100%Z) 60%Z nothing_yet
              (LibraryError "skvideo") eq_refl)
    as (Hraised & Hvideo & _ & Hdirs & Htrace).
  split; [exact Hraised|]. split; [|split; [exact Hdirs|exact Htrace]].
  apply Hvideo. right. reflexivity.
Defined.

Lemma make_mp4_silent_video_missing_witness :
  let after := make_mp4 (host_with_writer (inr false)) nat [] "out.mp4" None
                 None 60%Z nothing_yet in
  snd after = inl FileNotFoundError /\
  files (fst after) = [] /\
  In "/tmp/cneuromod_vg_utils_k3x9" (dirs (fst after)).
Proof.
  apply (make_mp4_silent_video_missing (host_with_writer (inr false)) nat []
           "out.mp4" None None 60%Z nothing_yet).
  - now left.
  - reflexivity.
  - intros [].
Defined.

Lemma make_mp4_leaves_the_rest_witness :
  let w := {| files := ["notes.txt"]; dirs := ["/tmp"; "/data"]; trace := [] |} in
  let after := make_mp4 (host None) nat [0; 1] "./out.mp4" (Some beep)
                 (Some 44100%Z) 60%Z w in
  (In "notes.txt" (files (fst after)) <-> In "notes.txt" (files w)) /\
  (In "/data" (dirs (fst after)) <-> In "/data" (dirs w)).
Proof.
  apply (make_mp4_leaves_the_rest (host None) nat [0; 1] "./out.mp4"
           (Some beep) (Some 44100%Z) 60%Z
           {| files := ["notes.txt"]; dirs := ["/tmp"; "/data"]; trace := [] |}
           "notes.txt" "/data"); discriminate.
Defined.

End FurtherExamples.
